(** * The set importer of the damage calculator (import/src/set-import.ts)

    A shallow embedding of the importer that turns curated sets and usage
    statistics into the calculator's set tables, and the properties of its
    parts: the weighted selector [top], the stat-table normalizer
    [toCalcStatsTable], the usage threshold, the generation-2 HP derivation,
    the validator adapter [validatePSet], the forme resolver [similarFormes]
    and the generation importer [importGen].

    Conventions of the embedding.
    - A JavaScript object that is enumerated ([for .. in], [Object.entries])
      is an association list in enumeration order; an object that is only
      read and written by key is a [gmap] of its own keys.  Where the code
      reads such an object by a name that comes from the data, the names
      that every object inherits ([JS.inherited]) are told apart: there the
      read gives the inherited member.
    - [undefined] and [null] are [None].
    - Numbers that the code only compares and subtracts (usage weights,
      thresholds) are rationals; numbers that are counts, levels or stat
      values are integers.  [%] is [Z.rem] and [Math.floor (x / 2)] is
      [x / 2] on [Z].
    - An exception ([TypeError] on a property of [undefined]) is the
      [Throw] case of [Result].
    - The reference database, the legality engine and the transport are
      not part of the file: they are the fields of [ReferenceDB],
      [LegalityEngine] and the fetch arguments. *)

From Stdlib Require Import ZArith QArith String Ascii List Bool Lia Sorted.
From stdpp Require Import gmap strings list pretty.
Import ListNotations.

Open Scope string_scope.

(* ===================================================================== *)
(** ** JavaScript strings *)
(* ===================================================================== *)

Module JS.

(** [s.startsWith(pre)] *)
Fixpoint startsWith (s pre : string) : bool :=
  match pre, s with
  | EmptyString, _ => true
  | String _ _, EmptyString => false
  | String c pre', String d s' => Ascii.eqb c d && startsWith s' pre'
  end.

(** [s.includes(sub)] on strings, also the test of a regular expression that
    is one literal without anchors. *)
Fixpoint includes (s sub : string) : bool :=
  startsWith s sub
  || match s with
     | EmptyString => false
     | String _ s' => includes s' sub
     end.

(** [re.test(s)] for a regular expression that is an alternation of literals
    and has no flag: [/a|b|c/]. *)
Definition testAlternation (alts : list string) (s : string) : bool :=
  existsb (includes s) alts.

(** [s.indexOf(c)] for a one-character [c]; -1 when [c] does not occur. *)
Fixpoint indexOf (s : string) (c : ascii) : Z :=
  match s with
  | EmptyString => -1
  | String d s' =>
      if Ascii.eqb d c then 0
      else let i := indexOf s' c in if (i <? 0)%Z then -1 else (i + 1)%Z
  end.

Fixpoint dropChars (n : nat) (s : string) : string :=
  match n, s with
  | O, _ => s
  | S _, EmptyString => EmptyString
  | S n', String _ s' => dropChars n' s'
  end.

(** [s.slice(start)]: a negative [start] counts from the end. *)
Definition slice (s : string) (start : Z) : string :=
  if (start <? 0)%Z
  then dropChars (Z.to_nat (Z.max 0 (Z.of_nat (String.length s) + start))) s
  else dropChars (Z.to_nat start) s.

(** [s.split(sep)] for a one-character separator: never empty. *)
Fixpoint split (sep : ascii) (s : string) : list string :=
  match s with
  | EmptyString => [EmptyString]
  | String c s' =>
      if Ascii.eqb c sep then EmptyString :: split sep s'
      else match split sep s' with
           | [] => [String c EmptyString]
           | w :: ws => String c w :: ws
           end
  end.

Definition isDigit (c : ascii) : bool :=
  let n := nat_of_ascii c in (48 <=? n)%nat && (n <=? 57)%nat.

Definition digitVal (c : ascii) : Z := Z.of_nat (nat_of_ascii c - 48).

(** The longest prefix of decimal digits read as a number, [None] when the
    string does not start with a digit. *)
Fixpoint digitsFrom (acc : option Z) (s : string) : option Z :=
  match s with
  | EmptyString => acc
  | String c s' =>
      if isDigit c
      then digitsFrom (Some (10 * default 0%Z acc + digitVal c)%Z) s'
      else acc
  end.

(** [+/^gen(\d+)/.exec(id)![1]]: the number after a leading [gen];
    [None] where [exec] gives [null], which the [!] then dereferences. *)
Definition genNumOf (id : string) : option Z :=
  if startsWith id "gen" then digitsFrom None (dropChars 3 id) else None.

Definition lowerChar (c : ascii) : ascii :=
  let n := nat_of_ascii c in
  if (65 <=? n)%nat && (n <=? 90)%nat then ascii_of_nat (n + 32) else c.

(** [s.toLowerCase()] on ASCII. *)
Fixpoint toLowerCase (s : string) : string :=
  match s with
  | EmptyString => EmptyString
  | String c s' => String (lowerChar c) (toLowerCase s')
  end.

(** A string is truthy when it is not empty. *)
Definition truthy (s : string) : bool := negb (String.eqb s "").

(** [a ?? b] *)
Definition nullish {A} (a : option A) (b : A) : A :=
  match a with Some x => x | None => b end.

(** The property names of [Object.prototype].  For such a name [k] and an
    object [o] made by a literal, [k in o] holds and [o[k]] is the member
    of the prototype (a function; the prototype itself for [__proto__]):
    it is neither [undefined] nor falsy, and it has none of the methods of
    a [Set]. *)
Definition inherited : list string :=
  ["constructor"; "__defineGetter__"; "__defineSetter__"; "hasOwnProperty";
   "__lookupGetter__"; "__lookupSetter__"; "isPrototypeOf";
   "propertyIsEnumerable"; "toString"; "valueOf"; "__proto__";
   "toLocaleString"].

Definition isInherited (k : string) : bool :=
  existsb (String.eqb k) inherited.

End JS.

(* ===================================================================== *)
(** ** Exceptions *)
(* ===================================================================== *)

Inductive Result (A : Type) : Type :=
| Ok (a : A)
| Throw (msg : string).
Arguments Ok {A} a.
Arguments Throw {A} msg.

#[export] Instance Result_ret : MRet Result := fun _ a => Ok a.

#[export] Instance Result_bind : MBind Result := fun _ _ k r =>
  match r with
  | Ok a => k a
  | Throw m => Throw m
  end.

(** A loop over [l] whose body may throw. *)
Fixpoint forEach {A S} (body : S -> A -> Result S) (l : list A) (s : S)
  : Result S :=
  match l with
  | [] => Ok s
  | x :: l' => s' ← body s x; forEach body l' s'
  end.

(* ===================================================================== *)
(** ** Objects that are enumerated *)
(* ===================================================================== *)

(** The entries of an object in enumeration order. *)
Definition Obj (V : Type) : Type := list (string * V).

Definition Weights := Obj Q.

(** A well-formed object has each key once. *)
Definition wfObj {K V} (o : list (K * V)) : Prop := NoDup (map fst o).

Definition weightOf (w : Weights) (k : string) : option Q :=
  snd <$> List.find (fun e => String.eqb (fst e) k) w.

Definition Qltb (a b : Q) : bool := negb (Qle_bool b a).

(** [a < b] on two reads of a weight map: false when a read is [undefined]. *)
Definition jsLt (a b : option Q) : bool :=
  match a, b with
  | Some x, Some y => Qltb x y
  | _, _ => false
  end.

(* ===================================================================== *)
(** ** The weighted selector *)
(* ===================================================================== *)

(** What [top] returns: [undefined], one key, or an array of keys. *)
Inductive Top : Type :=
| TopUndefined
| TopKey (k : string)
| TopKeys (ks : list string).

(** [!max]: [max] is [undefined] or the empty string. *)
Definition unset (max : option string) : bool :=
  match max with
  | None => true
  | Some m => negb (JS.truthy m)
  end.

(** One turn of the loop of the [n === 1] branch. *)
Definition topStep (weighted : Weights) (max : option string)
  (entry : string * Q) : option string :=
  let key := entry.1 in
  if unset max || jsLt (max ≫= weightOf weighted) (weightOf weighted key)
  then Some key
  else max.

Definition topMax (weighted : Weights) : option string :=
  fold_left (topStep weighted) weighted None.

(** [entries.sort((a, b) => b[1] - a[1])]: the sort is stable, so the result
    is that of inserting each entry, last first, before the first entry that
    does not have to come first. *)
Fixpoint insertDesc (a : string * Q) (l : list (string * Q))
  : list (string * Q) :=
  match l with
  | [] => [a]
  | b :: l' => if Qle_bool b.2 a.2 then a :: b :: l' else b :: insertDesc a l'
  end.

Fixpoint sortDesc (l : list (string * Q)) : list (string * Q) :=
  match l with
  | [] => []
  | a :: l' => insertDesc a (sortDesc l')
  end.

(** [arr.slice(0, n)]: a negative [n] counts from the end. *)
Definition sliceTo {A} (l : list A) (n : Z) : list A :=
  if (n <? 0)%Z then take (Z.to_nat (Z.of_nat (length l) + n)) l
  else take (Z.to_nat n) l.

Definition top (weighted : Weights) (n : Z) : Top :=
  if (n =? 0)%Z then TopUndefined
  else if (n =? 1)%Z then
    match topMax weighted with
    | Some k => TopKey k
    | None => TopUndefined
    end
  else TopKeys (map fst (sliceTo (sortDesc weighted) n)).

(** The keys a result holds. *)
Definition topKeys (t : Top) : list string :=
  match t with
  | TopUndefined => []
  | TopKey k => [k]
  | TopKeys ks => ks
  end.

(* ===================================================================== *)
(** ** Stat tables *)
(* ===================================================================== *)

Inductive StatID : Type := hp | atk | def | spa | spd | spe.

#[export] Instance StatID_eq_dec : EqDecision StatID.
Proof. solve_decision. Defined.

(** The keys of the calculator's table. *)
Inductive CalcStat : Type := c_hp | c_at | c_df | c_sa | c_sd | c_sp.

#[export] Instance CalcStat_eq_dec : EqDecision CalcStat.
Proof. solve_decision. Defined.

(** [Partial<StatsTable>] and [Partial<CalcStatsTable>], as enumerated. *)
Definition PartialStats := list (StatID * Z).
Definition PartialCalcStats := list (CalcStat * Z).

(** [o[k]] *)
Definition objGet {K V} `{EqDecision K} (o : list (K * V)) (k : K) : option V :=
  snd <$> List.find (fun e => bool_decide (e.1 = k)) o.

(** [o[k] = v]: in place when [k] is a key, a new last key otherwise. *)
Fixpoint objSet {K V} `{EqDecision K} (o : list (K * V)) (k : K) (v : V)
  : list (K * V) :=
  match o with
  | [] => [(k, v)]
  | e :: o' => if bool_decide (e.1 = k) then (k, v) :: o' else e :: objSet o' k v
  end.

(** A full table; its keys are enumerated in the order of the fields. *)
Record StatsTable : Type := mkStats {
  s_hp : Z; s_atk : Z; s_def : Z; s_spa : Z; s_spd : Z; s_spe : Z
}.

Definition getStat (t : StatsTable) (k : StatID) : Z :=
  match k with
  | hp => s_hp t | atk => s_atk t | def => s_def t
  | spa => s_spa t | spd => s_spd t | spe => s_spe t
  end.

Definition setStat (t : StatsTable) (k : StatID) (v : Z) : StatsTable :=
  match k with
  | hp => mkStats v (s_atk t) (s_def t) (s_spa t) (s_spd t) (s_spe t)
  | atk => mkStats (s_hp t) v (s_def t) (s_spa t) (s_spd t) (s_spe t)
  | def => mkStats (s_hp t) (s_atk t) v (s_spa t) (s_spd t) (s_spe t)
  | spa => mkStats (s_hp t) (s_atk t) (s_def t) v (s_spd t) (s_spe t)
  | spd => mkStats (s_hp t) (s_atk t) (s_def t) (s_spa t) v (s_spe t)
  | spe => mkStats (s_hp t) (s_atk t) (s_def t) (s_spa t) (s_spd t) v
  end.

(** [Dex.stats.ids()] *)
Definition statIDs : list StatID := [hp; atk; def; spa; spd; spe].

(** A full table where a partial one is expected. *)
Definition entries (t : StatsTable) : PartialStats :=
  map (fun k => (k, getStat t k)) statIDs.

(** Modelled from the spec: [TeamValidator.fillStats] of the legality
    engine's package, which is not in the file: a fresh full table that takes
    each stat the argument has and the fill value for the others
    ("fill any missing per-stat values"). *)
Definition fillStats (stats : option PartialStats) (fillNum : Z) : StatsTable :=
  let read k := default fillNum (stats ≫= fun s => objGet s k) in
  mkStats (read hp) (read atk) (read def) (read spa) (read spd) (read spe).

(** [Object.assign(t, src)] *)
Definition assign (t : StatsTable) (src : PartialStats) : StatsTable :=
  fold_left (fun t e => setStat t e.1 e.2) src t.

Definition calcKey (stat : StatID) : CalcStat :=
  match stat with
  | hp => c_hp | atk => c_at | def => c_df
  | spa => c_sa | spd => c_sd | spe => c_sp
  end.

(** One turn of the loop of [toCalcStatsTable]. *)
Definition condense (ignoreVal : Z) (calcStatsTable : PartialCalcStats)
  (e : StatID * Z) : PartialCalcStats :=
  if (e.2 =? ignoreVal)%Z then calcStatsTable
  else objSet calcStatsTable (calcKey e.1) e.2.

Definition toCalcStatsTable (stats : PartialStats) (ignoreVal : Z)
  : PartialCalcStats :=
  fold_left (condense ignoreVal) stats [].

(** The downstream expansion the round trip of the normalizer is stated
    with, after the spec's words ("re-expanding with the same ignore value
    as fill"): each stat is its condensed entry, or the fill value when the
    condensed table has none. *)
Definition expandCalcStats (c : PartialCalcStats) (fillVal : Z) : StatsTable :=
  let read k := default fillVal (objGet c (calcKey k)) in
  mkStats (read hp) (read atk) (read def) (read spa) (read spd) (read spe).

(* ===================================================================== *)
(** ** The usage threshold *)
(* ===================================================================== *)

(** A threshold is [Infinity] or a decimal. *)
Inductive Threshold : Type :=
| Infinity
| Finite (q : Q).

(** The alternatives of [/uber|anythinggoes|doublesou/]. *)
Definition lowQuality : list string := ["uber"; "anythinggoes"; "doublesou"].

Definition getUsageThreshold (formatID : string) (count : Z) : Threshold :=
  if (count <? 100)%Z then Infinity
  else if (count <? 400)%Z then Finite 0.05
  else if JS.testAlternation lowQuality formatID then Finite 0.03
  else Finite 0.01.

(** [weighted < threshold] *)
Definition belowThreshold (weighted : Q) (threshold : Threshold) : bool :=
  match threshold with
  | Infinity => true
  | Finite q => Qltb weighted q
  end.

(* ===================================================================== *)
(** ** Spreads, levels and the generation-2 HP *)
(* ===================================================================== *)

Definition expectedHP (ivs : PartialStats) : Z :=
  let ivs := fillStats (Some ivs) 31 in
  let atkDV := (s_atk ivs / 2)%Z in
  let defDV := (s_def ivs / 2)%Z in
  let speDV := (s_spe ivs / 2)%Z in
  let spcDV := (s_spa ivs / 2)%Z in
  (2 * (Z.rem atkDV 2 * 8 + Z.rem defDV 2 * 4 + Z.rem speDV 2 * 2
        + Z.rem spcDV 2))%Z.

Definition getLevel (formatID : string) : Z :=
  if JS.includes formatID "lc" then 5
  else if JS.includes formatID "vgc" || JS.includes formatID "battlestadium"
  then 50
  else 100.

(* ===================================================================== *)
(** ** Records of the importer *)
(* ===================================================================== *)

(** A field of a curated set that is one value or an array of alternatives. *)
Inductive OneOrMany (A : Type) : Type :=
| One (a : A)
| Many (l : list A).
Arguments One {A} a.
Arguments Many {A} l.

(** [first(v)], also on a field that is absent. *)
Definition first {A} (v : option (OneOrMany A)) : option A :=
  match v with
  | None => None
  | Some (One a) => Some a
  | Some (Many l) => head l
  end.

(** A move of a curated set: the interface declares a name, the data also
    has arrays of alternatives, of which [first] takes the first.  An array
    of alternatives is not empty. *)
Inductive MoveSlot : Type :=
| Move (m : string)
| MoveOptions (m : string) (others : list string).

(** [first] as [moves.map] calls it. *)
Definition firstMove (v : MoveSlot) : string :=
  match v with
  | Move m => m
  | MoveOptions m _ => m
  end.

(** [DexSet] *)
Record DexSet : Type := mkDexSet {
  d_moves : list MoveSlot;
  d_level : option Z;
  d_ability : option (OneOrMany string);
  d_item : option (OneOrMany string);
  d_nature : option (OneOrMany string);
  d_teratypes : option (OneOrMany string);
  d_evs : option (OneOrMany PartialStats);
  d_ivs : option (OneOrMany PartialStats)
}.

(** [DexSets]: species, then format, then set name. *)
Definition DexSets := Obj (Obj (Obj DexSet)).

Record CalcSet : Type := mkCalcSet {
  c_moves : list string;
  c_level : Z;
  c_ability : string;
  c_item : string;
  c_nature : string;
  c_teraType : option string;
  c_evs : PartialCalcStats;
  c_ivs : PartialCalcStats
}.

Record PokemonSet : Type := mkPSet {
  p_name : string;
  p_species : string;
  p_item : string;
  p_ability : string;
  p_moves : list string;
  p_nature : string;
  p_gender : string;
  p_evs : StatsTable;
  p_ivs : StatsTable;
  p_level : Z;
  p_teraType : option string;
  p_hpType : option string;
  p_shiny : option bool
}.

Definition setAbility (pset : PokemonSet) (a : string) : PokemonSet :=
  mkPSet (p_name pset) (p_species pset) (p_item pset) a (p_moves pset)
    (p_nature pset) (p_gender pset) (p_evs pset) (p_ivs pset) (p_level pset)
    (p_teraType pset) (p_hpType pset) (p_shiny pset).

Definition setMoves (pset : PokemonSet) (m : list string) : PokemonSet :=
  mkPSet (p_name pset) (p_species pset) (p_item pset) (p_ability pset) m
    (p_nature pset) (p_gender pset) (p_evs pset) (p_ivs pset) (p_level pset)
    (p_teraType pset) (p_hpType pset) (p_shiny pset).

Definition setEvs (pset : PokemonSet) (t : StatsTable) : PokemonSet :=
  mkPSet (p_name pset) (p_species pset) (p_item pset) (p_ability pset)
    (p_moves pset) (p_nature pset) (p_gender pset) t (p_ivs pset)
    (p_level pset) (p_teraType pset) (p_hpType pset) (p_shiny pset).

Definition setIvs (pset : PokemonSet) (t : StatsTable) : PokemonSet :=
  mkPSet (p_name pset) (p_species pset) (p_item pset) (p_ability pset)
    (p_moves pset) (p_nature pset) (p_gender pset) (p_evs pset) t
    (p_level pset) (p_teraType pset) (p_hpType pset) (p_shiny pset).

Definition setHpType (pset : PokemonSet) (t : string) : PokemonSet :=
  mkPSet (p_name pset) (p_species pset) (p_item pset) (p_ability pset)
    (p_moves pset) (p_nature pset) (p_gender pset) (p_evs pset) (p_ivs pset)
    (p_level pset) (p_teraType pset) (Some t) (p_shiny pset).

Definition setShiny (pset : PokemonSet) (b : bool) : PokemonSet :=
  mkPSet (p_name pset) (p_species pset) (p_item pset) (p_ability pset)
    (p_moves pset) (p_nature pset) (p_gender pset) (p_evs pset) (p_ivs pset)
    (p_level pset) (p_teraType pset) (p_hpType pset) (Some b).

Definition withAbility (c : CalcSet) (a : string) : CalcSet :=
  mkCalcSet (c_moves c) (c_level c) a (c_item c) (c_nature c) (c_teraType c)
    (c_evs c) (c_ivs c).

(** What the importer reads of a species, an item and a format. *)
Record Specie : Type := mkSpecie {
  sp_name : string;
  sp_abilities0 : string;
  sp_isMega : bool;
  sp_baseSpecies : string
}.

Record Item : Type := mkItem {
  i_exists : bool;
  i_megaEvolves : option string;
  i_megaStone : option string
}.

Record Format : Type := mkFormat {
  f_id : string;
  f_name : string;
  f_exists : bool;
  f_banlist : list string
}.

Record Generation : Type := mkGen { num : Z }.

(** The usage statistics of one species, and the page of one format. *)
Record UsageStatistics : Type := mkUsage {
  u_weighted : Q;
  u_abilities : Weights;
  u_items : Weights;
  u_spreads : Weights;
  u_moves : Weights
}.

Record DisplayStatistics : Type := mkStatsPage {
  battles : Z;
  pokemon : Obj UsageStatistics
}.

(* ===================================================================== *)
(** ** The collaborators *)
(* ===================================================================== *)

(** The reference database.  The lookups of a generation ([gen.species.get],
    [gen.items.get]) give [undefined] for a name the generation does not
    have; [Dex.formats.get] and the species lookup of the modded dex
    ([ModdedDex.forGen(n).species.get]) give an object, which is how the
    importer uses them: it reads [format.exists] and the fields of the
    species.  The item lookup of the modded dex
    ([ModdedDex.forGen(n).items.get]) has the interface the specification
    gives the item lookup, [lookupItem(name) -> Item | none]: it may give
    nothing. *)
Record ReferenceDB : Type := mkDB {
  formats_get : string -> Format;
  ruleTable_has : Format -> string -> bool;
  gen_species_get : Z -> string -> option Specie;
  modded_species_get : Z -> string -> Specie;
  gen_items_get : Z -> string -> option Item;
  modded_items_get : Z -> string -> option Item;
  getHiddenPower_type : Z -> StatsTable -> string;
  types_HPdvs : Z -> string -> PartialStats;
  types_HPivs : Z -> string -> PartialStats
}.

(** The legality engine: a validator is made for a format, and validating a
    set may change the validator, may change the set in place, and gives
    [null] or the violations. *)
Record LegalityEngine : Type := mkEngine {
  TeamValidator : Type;
  newTeamValidator : Format -> TeamValidator;
  validateSet :
    TeamValidator -> PokemonSet ->
    TeamValidator * PokemonSet * option (list string)
}.

(** The host: [Number(s)] ([None] is [NaN]) and the statistics a fetch
    gives for a format ([None] when the page is absent or the fetch throws). *)
Record Host : Type := mkHost {
  Number : string -> option Z;
  fetchStats : string -> option DisplayStatistics
}.

(** [UNSUPPORTED].  It is read by the identifiers the importer makes,
    which start with [gen] and so are not inherited names. *)
Definition UNSUPPORTED : Obj string :=
  [("gen9almostanyability", "[Gen 9] Almost Any Ability");
   ("gen9lc", "[Gen 9] LC")].

Definition unsupported (formatID : string) : option string :=
  snd <$> List.find (fun e => String.eqb e.1 formatID) UNSUPPORTED.

(** Which pass a set comes from. *)
Inductive Source : Type := src_dex | src_stats.

#[export] Instance Source_eq_dec : EqDecision Source.
Proof. solve_decision. Defined.

(* ===================================================================== *)
(** ** The record builders *)
(* ===================================================================== *)

Section Builders.

Context (host : Host) (db : ReferenceDB).

(** [gen.species.get(name) ?? ModdedDex.forGen(gen.num).species.get(name)] *)
Definition getSpecie (gen : Generation) (specieName : string) : Specie :=
  JS.nullish (gen_species_get db (num gen) specieName)
             (modded_species_get db (num gen) specieName).

(** Modelled from the spec: the item lookups of the reference database,
    whose code (the packages of the dex) is not in the source file, are
    [lookupItem(name) -> Item | none], so either operand of
    [gen.items.get(name) ?? ModdedDex.forGen(gen.num).items.get(name)] may
    be absent; the [??] is the code's. *)
Definition lookupItem (gen : Generation) (name : string) : option Item :=
  match gen_items_get db (num gen) name with
  | Some i => Some i
  | None => modded_items_get db (num gen) name
  end.

Definition fromSpread (spread : string) : Result (string * PartialStats) :=
  match JS.split ":" spread with
  | nature :: revs :: _ =>
      Ok (nature,
          fold_left
            (fun evs e =>
               match Number host e.2 with
               | Some ev => if (ev =? 0)%Z then evs else objSet evs e.1 ev
               | None => evs
               end)
            (zip statIDs (JS.split "/" revs)) [])
  | _ => Throw "TypeError: revs is undefined"
  end.

(** The statements both builders end with: make the hidden-encoding table
    give the type of the set's Hidden Power.  [gen.dex.gen] is [gen.num]. *)
Definition reconcile (gen : Generation) (pset : PokemonSet) : PokemonSet :=
  match List.find (fun m => JS.startsWith m "Hidden Power") (p_moves pset) with
  | None => pset
  | Some move =>
      let type := JS.slice move 13 in
      if JS.truthy type
         && negb (String.eqb (getHiddenPower_type db (num gen) (p_ivs pset)) type)
      then
        if (7 <=? num gen)%Z && (p_level pset =? 100)%Z then setHpType pset type
        else if (num gen =? 2)%Z then
          let dvs := map (fun e => (e.1, (e.2 * 2)%Z))
                         (types_HPdvs db (num gen) type) in
          let ivs := assign (p_ivs pset) dvs in
          setIvs pset (setStat ivs hp (expectedHP (entries ivs)))
        else setIvs pset (assign (p_ivs pset) (types_HPivs db (num gen) type))
      else pset
  end.

Definition dexToPset (gen : Generation) (specie : Specie) (dset : DexSet)
  : PokemonSet :=
  reconcile gen
    {| p_name := "";
       p_species := sp_name specie;
       p_item := JS.nullish (first (d_item dset)) "";
       p_ability := JS.nullish (first (d_ability dset)) (sp_abilities0 specie);
       p_moves := map firstMove (d_moves dset);
       p_nature := JS.nullish (first (d_nature dset)) "";
       p_gender := "";
       p_evs := fillStats (first (d_evs dset))
                  (if (num gen <? 3)%Z then 252 else 0)%Z;
       p_ivs := fillStats None (if (num gen =? 2)%Z then 30 else 31)%Z;
       p_level := JS.nullish (d_level dset) 100%Z;
       p_teraType := first (d_teratypes dset);
       p_hpType := None;
       p_shiny := None |}.

(** [!x || x === 'Nothing' ? '' : x] on the result of [top(.., 1)]. *)
Definition orEmpty (t : Top) : string :=
  match t with
  | TopKey k => if negb (JS.truthy k) || String.eqb k "Nothing" then "" else k
  | _ => ""
  end.

Definition usageToPset (gen : Generation) (formatID specieName : string)
  (uset : UsageStatistics) : Result PokemonSet :=
  spread ← match top (u_spreads uset) 1 with
           | TopKey k => Ok k
           | _ => Throw "TypeError: spread is undefined"
           end;
  ne ← fromSpread spread;
  let item := top (u_items uset) 1 in
  let ability := top (u_abilities uset) 1 in
  Ok (reconcile gen
        {| p_name := "";
           p_species := specieName;
           p_item := orEmpty item;
           p_ability := orEmpty ability;
           p_moves := List.filter (fun m => negb (String.eqb m "Nothing"))
                        (topKeys (top (u_moves uset) 4));
           p_nature := ne.1;
           p_gender := "";
           p_evs := fillStats (Some ne.2)
                      (if (num gen <? 3)%Z then 252 else 0)%Z;
           p_ivs := fillStats None (if (num gen =? 2)%Z then 30 else 31)%Z;
           p_level := getLevel formatID;
           p_teraType := None;
           p_hpType := None;
           p_shiny := None |}).

End Builders.

Definition psetToCalcSet (genNum : Z) (pset : PokemonSet) : CalcSet :=
  {| c_level := p_level pset;
     c_ability := p_ability pset;
     c_item := p_item pset;
     c_nature := p_nature pset;
     c_teraType := p_teraType pset;
     c_ivs := toCalcStatsTable (entries (p_ivs pset))
                (if (genNum =? 2)%Z then 30 else 31)%Z;
     c_evs := toCalcStatsTable (entries (p_evs pset))
                (if (2 <? genNum)%Z then 0 else 252)%Z;
     c_moves := p_moves pset |}.

(* ===================================================================== *)
(** ** The validator adapter *)
(* ===================================================================== *)

(** [crowned] *)
Definition crowned : Obj string :=
  [("Zacian-Crowned", "Behemoth Blade"); ("Zamazenta-Crowned", "Behemoth Bash")].

(** [arr.indexOf(x)], [None] for -1. *)
Fixpoint arrayIndexOf (l : list string) (x : string) : option nat :=
  match l with
  | [] => None
  | y :: l' => if String.eqb y x then Some O else S <$> arrayIndexOf l' x
  end.

(** The rename of the crowned formes' move: [species] is the name read
    before the engine ran.  [species in crowned] also holds for the names of
    [JS.inherited]; the slot of [ironhead] then receives the member of the
    prototype, which is not a string and which [PokemonSet] cannot hold.
    The definition covers the species whose name is not one of these, for
    which [in] is the test on the two keys. *)
Definition renameCrowned (species : string) (pset : PokemonSet) : PokemonSet :=
  match snd <$> List.find (fun e => String.eqb e.1 species) crowned with
  | Some move =>
      match arrayIndexOf (p_moves pset) "ironhead" with
      | Some ironhead => setMoves pset (<[ironhead := move]> (p_moves pset))
      | None => pset
      end
  | None => pset
  end.

(** [invalid.length === 1 && invalid[0].includes(sub)] *)
Definition soleViolation (invalid : list string) (sub : string) : bool :=
  match invalid with
  | [m] => JS.includes m sub
  | _ => false
  end.

Definition mustBeShiny : string := "must be shiny".
Definition zeroEVs : string := "has exactly 0 EVs - did you forget to EV it?".

(** [format.id === 'gen4ubers' && invalid.includes(`${pset.name} is banned.`)] *)
Definition allowedAnyway (format : Format) (pset : PokemonSet)
  (invalid : list string) : bool :=
  String.eqb (f_id format) "gen4ubers"
  && existsb (String.eqb (p_name pset ++ " is banned.")) invalid.

(** [VALIDATORS]: the validators made so far, by format. *)
Abbreviation Validators engine := (gmap string (TeamValidator engine)).

(** What a call of the adapter leaves: the answer, the set as changed in
    place, and the validators. *)
Abbreviation Verdict engine := (bool * PokemonSet * Validators engine)%type.

Section Adapter.

Context (engine : LegalityEngine).

(** [VALIDATORS[format.id]], made first when there is none.  The importer
    calls the adapter for formats that exist in the reference database. *)
Definition validatorOf (format : Format) (VALIDATORS : Validators engine)
  : TeamValidator engine :=
  match VALIDATORS !! f_id format with
  | Some v => v
  | None => newTeamValidator engine format
  end.

(** The adapter writes the rejected set to the console before it returns
    false; the console is not part of the embedding. *)
Definition validatePSet (format : Format) (pset : PokemonSet) (type : Source)
  (VALIDATORS : Validators engine) : Verdict engine :=
  let validator := validatorOf format VALIDATORS in
  let species := p_species pset in
  let ability := p_ability pset in
  let '(validator, pset, invalid) := validateSet engine validator pset in
  let pset := renameCrowned species pset in
  let pset := setAbility pset ability in
  let ret (b : bool) validator pset : Verdict engine :=
    (b, pset, <[f_id format := validator]> VALIDATORS) in
  match invalid with
  | None => ret true validator pset
  | Some invalid =>
      let shinyTry :=
        if soleViolation invalid mustBeShiny
        then validateSet engine validator (setShiny pset true)
        else (validator, pset, Some invalid) in
      match shinyTry with
      | (validator, pset, None) => ret true validator pset
      | (validator, pset, Some invalid) =>
          let evTry :=
            if soleViolation invalid zeroEVs
            then validateSet engine validator
                   (setEvs pset (setStat (p_evs pset) hp 1))
            else (validator, pset, Some invalid) in
          match evTry with
          | (validator, pset, None) => ret true validator pset
          | (validator, pset, Some invalid) =>
              if allowedAnyway format pset invalid
              then ret true validator pset
              else ret false validator pset
          end
      end
  end.

End Adapter.

(* ===================================================================== *)
(** ** The forme resolver *)
(* ===================================================================== *)

(** [x && ..] on an optional string: defined and not empty. *)
Definition present (o : option string) : bool :=
  match o with
  | Some s => JS.truthy s
  | None => false
  end.

(** The table of the final [switch]. *)
Definition fixedFormes (name : string) : option (list string) :=
  if String.eqb name "Aegislash"
  then Some ["Aegislash-Blade"; "Aegislash-Shield"; "Aegislash-Both"]
  else if String.eqb name "Darmanitan-Galar" then Some ["Darmanitan-Galar-Zen"]
  else if String.eqb name "Keldeo" then Some ["Keldeo-Resolute"]
  else if String.eqb name "Minior" then Some ["Minior-Meteor"]
  else if String.eqb name "Palafin" then Some ["Palafin-Hero"]
  else if String.eqb name "Rayquaza-Mega" then Some ["Rayquaza"]
  else if String.eqb name "Sirfetch'd" then Some ["Sirfetch’d"]
  else if String.eqb name "Wishiwashi" then Some ["Wishiwashi-School"]
  else None.

(** The guard of the step back from Rayquaza-Mega. *)
Definition stepsBack (format : Format) : bool :=
  negb (JS.includes (f_id format) "balancedhackmons")
  || JS.includes (f_id format) "bh".

(** [item?.megaEvolves && item.megaStone
     && specie.name === item.megaEvolves] *)
Definition stoneOf (specie : Specie) (item : option Item) : bool :=
  match item with
  | Some it =>
      present (i_megaEvolves it) && present (i_megaStone it)
      && bool_decide (Some (sp_name specie) = i_megaEvolves it)
  | None => false
  end.

Section Resolver.

Context (db : ReferenceDB).

(** [isMrayAllowed], for the number read from the format's identifier. *)
Definition isMrayAllowed (format : Format) (genNum : Z) : bool :=
  let free :=
    negb (ruleTable_has db format "megarayquazaclause")
    && negb (existsb (String.eqb "Rayquaza-Mega") (f_banlist format)) in
  if (genNum =? 6)%Z || (genNum =? 7)%Z then free
  else JS.includes (f_id format) "nationaldex" && free.

(** The rules after the first one. *)
Definition laterFormes (pset : PokemonSet) (format : option Format)
  (specie : Specie) (item : option Item) : option (list string) :=
  if String.eqb (p_species pset) "Rayquaza-Mega"
     && match format with Some f => stepsBack f | None => false end
  then Some ["Rayquaza"]
  else if String.eqb (p_ability pset) "Power Construct"
  then Some ["Zygarde-Complete"]
  else if stoneOf specie item
  then Some [if sp_isMega specie then sp_baseSpecies specie
             else default "" (item ≫= i_megaStone)]
  else fixedFormes (sp_name specie).

Definition similarFormes (pset : PokemonSet) (format : option Format)
  (specie : Specie) (item : option Item) : Result (option (list string)) :=
  match format with
  | Some f =>
      if String.eqb (p_species pset) "Rayquaza"
         && existsb (String.eqb "Dragon Ascent") (p_moves pset)
      then
        match JS.genNumOf (f_id f) with
        | None => Throw "TypeError: exec gave null"
        | Some genNum =>
            if isMrayAllowed f genNum then Ok (Some ["Rayquaza-Mega"])
            else Ok (laterFormes pset format specie item)
        end
      else Ok (laterFormes pset format specie item)
  | None => Ok (laterFormes pset format specie item)
  end.

End Resolver.

(* ===================================================================== *)
(** ** The generation importer *)
(* ===================================================================== *)

(** One assignment [calcSets[specie][setName] = calcSet], with the pass and
    the format it was made for. *)
Record Store : Type := mkStore {
  st_source : Source;
  st_specie : string;
  st_formatID : string;
  st_setName : string;
  st_calcSet : CalcSet
}.

Abbreviation CalcSets := (gmap string (gmap string CalcSet)).

(** The variables of [importGen] and [VALIDATORS].  [stored] is a ghost: the
    assignments to [calcSets] in the order they were made. *)
Record ImportState (V : Type) : Type := mkState {
  calcSets : CalcSets;
  statsIgnore : gmap string (gset string);
  formatIDs : list string;
  VALIDATORS : gmap string V;
  stored : list Store
}.
Arguments mkState {V}.
Arguments calcSets {V}.
Arguments statsIgnore {V}.
Arguments formatIDs {V}.
Arguments VALIDATORS {V}.
Arguments stored {V}.

(** [if (!calcSets[k]) calcSets[k] = {}; calcSets[k][setName] = calcSet].
    For a name [k] of [JS.inherited], [calcSets[k]] is the member of the
    prototype: no object is made, the write goes to that member, and
    [calcSets] keeps its own keys.  A write to [__proto__] of the object of
    a species sets its prototype and makes no key. *)
Definition assignSet (c : CalcSets) (k setName : string) (calcSet : CalcSet)
  : CalcSets :=
  if JS.isInherited k then c
  else
    let sets := default ∅ (c !! k) in
    <[k := if String.eqb setName "__proto__" then sets
           else <[setName := calcSet]> sets]> c.

(** The map a sequence of assignments builds. *)
Definition replay (l : list Store) : CalcSets :=
  fold_left (fun c e => assignSet c (st_specie e) (st_setName e) (st_calcSet e))
            l ∅.

(** The set that [statsIgnore] holds under its own key [k] has
    [formatID]. *)
Definition listed (ig : gmap string (gset string)) (k formatID : string)
  : bool :=
  match ig !! k with
  | Some fs => bool_decide (formatID ∈ fs)
  | None => false
  end.

(** [statsIgnore[k]?.has(formatID)].  For a name [k] of [JS.inherited],
    [statsIgnore[k]] is the member of the prototype: it is not nullish and
    has no [has], and the call throws. *)
Definition ignored (ig : gmap string (gset string)) (k formatID : string)
  : Result bool :=
  if JS.isInherited k
  then Throw "TypeError: statsIgnore[k]?.has is not a function"
  else Ok (listed ig k formatID).

Section Importer.

Context (host : Host) (db : ReferenceDB) (engine : LegalityEngine).

Definition State : Type := ImportState (TeamValidator engine).

Definition store (src : Source) (k formatID setName : string)
  (calcSet : CalcSet) (s : State) : State :=
  mkState (assignSet (calcSets s) k setName calcSet) (statsIgnore s)
    (formatIDs s) (VALIDATORS s)
    (stored s ++ [mkStore src k formatID setName calcSet]).

(** [if (!statsIgnore[k]) statsIgnore[k] = new Set();
     statsIgnore[k].add(formatID)].  For a name [k] of [JS.inherited],
    [statsIgnore[k]] is the member of the prototype: no set is made, and
    the member has no [add], so the call throws. *)
Definition ignore (k formatID : string) (s : State) : Result State :=
  if JS.isInherited k
  then Throw "TypeError: statsIgnore[k].add is not a function"
  else
    Ok (mkState (calcSets s)
          (<[k := {[formatID]} ∪ default ∅ (statsIgnore s !! k)]> (statsIgnore s))
          (formatIDs s) (VALIDATORS s) (stored s)).

(** [formatIDs.add(formatID)] *)
Definition addFormat (formatID : string) (s : State) : State :=
  mkState (calcSets s) (statsIgnore s)
    (if existsb (String.eqb formatID) (formatIDs s) then formatIDs s
     else formatIDs s ++ [formatID])
    (VALIDATORS s) (stored s).

Definition setValidators (s : State) (v : Validators engine) : State :=
  mkState (calcSets s) (statsIgnore s) (formatIDs s) v (stored s).

(** [UNSUPPORTED[formatID] ? null : Dex.formats.get(formatID)] *)
Definition resolveFormat (formatID : string) : option Format :=
  if present (unsupported formatID) then None
  else Some (formats_get db formatID).

(** [format?.name ?? UNSUPPORTED[formatID]] *)
Definition formatNameOf (format : option Format) (formatID : string)
  : option string :=
  match format with
  | Some f => Some (f_name f)
  | None => unsupported formatID
  end.

(** [`${formatName.slice(formatName.indexOf(']') + 2)} ${name}`] *)
Definition setNameOf (formatName : option string) (name : string)
  : Result string :=
  match formatName with
  | Some n => Ok (JS.slice n (JS.indexOf n "]" + 2) ++ " " ++ name)
  | None => Throw "TypeError: formatName is undefined"
  end.

(** [format && !validatePSet(format, pset, type)], with what the call
    leaves. *)
Definition rejected (format : option Format) (pset : PokemonSet)
  (type : Source) (s : State) : bool * PokemonSet * State :=
  match format with
  | Some f =>
      let '(ok, pset, v) := validatePSet engine f pset type (VALIDATORS s) in
      (negb ok, pset, setValidators s v)
  | None => (false, pset, s)
  end.

(** The copy of a curated set to one similar forme. *)
Definition dexCopy (gen : Generation) (formatID setName : string)
  (calcSet : CalcSet) (s : State) (forme : string) : Result State :=
  s ← ignore forme formatID s;
  if JS.includes forme "-Mega" then
    let mega := getSpecie db gen forme in
    Ok (store src_dex forme formatID setName
          (withAbility calcSet (sp_abilities0 mega)) s)
  else Ok (store src_dex forme formatID setName calcSet s).

(** The body of the loop over the sets of a species in a format. *)
Definition dexRecord (gen : Generation) (formatID : string)
  (format : option Format) (specieName : string) (specie : Specie)
  (s : State) (entry : string * DexSet) : Result State :=
  let pset := dexToPset db gen specie entry.2 in
  let '(no, pset, s) := rejected format pset src_dex s in
  if no then Ok s
  else
    let calcSet := psetToCalcSet (num gen) pset in
    setName ← setNameOf (formatNameOf format formatID) entry.1;
    let s := store src_dex specieName formatID setName calcSet s in
    s ← ignore specieName formatID s;
    let item := lookupItem db gen (p_item pset) in
    copyTo ← similarFormes db pset format specie item;
    forEach (dexCopy gen formatID setName calcSet) (default [] copyTo) s.

(** The body of the loop over the formats of a species. *)
Definition dexFormat (gen : Generation) (specieName : string) (s : State)
  (entry : string * Obj DexSet) : Result State :=
  let formatID := "gen" ++ pretty (num gen) ++ entry.1 in
  let format := resolveFormat formatID in
  if match format with Some f => negb (f_exists f) | None => false end
  then Ok s
  else
    let s := addFormat formatID s in
    let specie := getSpecie db gen specieName in
    forEach (dexRecord gen formatID format specieName specie) entry.2 s.

Definition dexSpecie (gen : Generation) (s : State)
  (entry : string * Obj (Obj DexSet)) : Result State :=
  forEach (dexFormat gen entry.1) entry.2 s.

(** The copy of a usage set to one similar forme; [item] is dereferenced. *)
Definition statsCopy (gen : Generation) (formatID setName : string)
  (calcSet : CalcSet) (item : option Item) (s : State) (forme : string)
  : Result State :=
  skip ← ignored (statsIgnore s) forme formatID;
  if skip : bool then Ok s
  else
    match item with
    | None => Throw "TypeError: item is undefined"
    | Some it =>
        if present (i_megaEvolves it) && present (i_megaStone it) then
          let mega := getSpecie db gen forme in
          Ok (store src_stats forme formatID setName
                (withAbility calcSet (sp_abilities0 mega)) s)
        else Ok (store src_stats forme formatID setName calcSet s)
    end.

(** The body of the loop over the species of a statistics page. *)
Definition statsRecord (gen : Generation) (formatID : string)
  (format : option Format) (threshold : Threshold)
  (s : State) (entry : string * UsageStatistics) : Result State :=
  let specieName := entry.1 in
  let uset := entry.2 in
  skip ← ignored (statsIgnore s) specieName formatID;
  if skip : bool then Ok s
  else if belowThreshold (u_weighted uset) threshold then Ok s
  else
    let specie := getSpecie db gen specieName in
    pset ← usageToPset host db gen formatID (sp_name specie) uset;
    let '(no, pset, s) := rejected format pset src_stats s in
    if no then Ok s
    else
      let calcSet := psetToCalcSet (num gen) pset in
      setName ← setNameOf (formatNameOf format formatID) "Showdown Usage";
      let s := store src_stats specieName formatID setName calcSet s in
      let item := lookupItem db gen (p_item pset) in
      copyTo ← similarFormes db pset format specie item;
      forEach (statsCopy gen formatID setName calcSet item) (default [] copyTo) s.

(** The body of the loop over [formatIDs]. *)
Definition statsFormat (gen : Generation) (s : State) (formatID : string)
  : Result State :=
  let format := resolveFormat formatID in
  if match format with Some f => negb (f_exists f) | None => false end
  then Ok s
  else
    match fetchStats host formatID with
    | None => Ok s
    | Some page =>
        let threshold := getUsageThreshold formatID (battles page) in
        forEach (statsRecord gen formatID format threshold) (pokemon page) s
    end.

Definition dexPass (gen : Generation) (dexSets : DexSets) (s : State)
  : Result State :=
  forEach (dexSpecie gen) dexSets s.

Definition statsPass (gen : Generation) (s : State) : Result State :=
  forEach (statsFormat gen) (formatIDs s) s.

(** The state [importGen] starts from: its variables are fresh, the
    validators are those of the generations before. *)
Definition initial (v : Validators engine) : State := mkState ∅ ∅ [] v [].

(** [importGen] with all its variables; [dexSets] is what [fetchDexSets]
    gave. *)
Definition importGenState (gen : Generation) (dexSets : DexSets)
  (v : Validators engine) : Result State :=
  s ← dexPass gen dexSets (initial v);
  statsPass gen s.

Definition importGen (gen : Generation) (dexSets : DexSets)
  (v : Validators engine) : Result CalcSets :=
  s ← importGenState gen dexSets v;
  Ok (calcSets s).

End Importer.

(* ===================================================================== *)
(** ** The batch driver *)
(* ===================================================================== *)

(** What the driver reads of its process and of the network:
    [fs.statSync(p).isDirectory()] ([None] when [statSync] throws), what
    [fetchDexSets] resolves to for a generation (the empty object on a 404;
    [Throw] when the fetch or the parse throws) and [JSON.stringify] on the
    sets of a generation. *)
Record Shell : Type := mkShell {
  isDirectory : string -> option bool;
  fetchDexSets : Z -> Result DexSets;
  stringify : CalcSets -> string
}.

(** [genNames] *)
Definition genNames : list string :=
  ["RBY"; "GSC"; "ADV"; "DPP"; "BW"; "XY"; "SM"; "SS"; "SV"].

(** How the process ends: [process.exit(code)], or an exception nothing
    catches. *)
Inductive Exit : Type :=
| Exited (code : Z)
| Uncaught (msg : string).

(** The files written, in order, each with its content, and the end of the
    process. *)
Record Run : Type := mkRun {
  files : list (string * string);
  exit : Exit
}.

Definition newline : string := String (ascii_of_nat 10) EmptyString.

Section Driver.

Context (shell : Shell) (host : Host) (db : ReferenceDB)
  (engine : LegalityEngine).

(** [`${outDir}/gen${i + 1}.js`] *)
Definition pathOf (outDir : string) (i : Z) : string :=
  outDir ++ "/gen" ++ pretty (i + 1)%Z ++ ".js".

(** [await importGen(gens.get(i + 1))], with the variables it ends with;
    [v] is [VALIDATORS]. *)
Definition importOf (i : Z) (v : Validators engine) : Result (State engine) :=
  dexSets ← fetchDexSets shell (i + 1)%Z;
  importGenState host db engine (mkGen (i + 1)) dexSets v.

(** The text of the file of a generation:
    [`var SETDEX_${genName} = ${JSON.stringify(calcSets)};\n`]. *)
Definition textOf (genName : string) (c : CalcSets) : string :=
  "var SETDEX_" ++ genName ++ " = " ++ stringify shell c ++ ";" ++ newline.

(** The loop over [genNames.entries()], from index [i] on: [written] are
    the files so far, [v] is [VALIDATORS].  [fs.writeFileSync] is taken to
    succeed; the message of [Uncaught] is that of the exception of the
    fetch or of [importGen]. *)
Fixpoint writeGens (outDir : string) (names : list string) (i : Z)
  (v : Validators engine) (written : list (string * string)) : Run :=
  match names with
  | [] => mkRun written (Exited 0)
  | genName :: names' =>
      match importOf i v with
      | Throw m => mkRun written (Uncaught m)
      | Ok s =>
          writeGens outDir names' (i + 1)%Z (VALIDATORS s)
            (written ++ [(pathOf outDir i, textOf genName (calcSets s))])
      end
  end.

(** The body of the file; [outDir] is [process.argv[2]].  The message
    [ENOENT] stands for whatever [fs.statSync] throws. *)
Definition main (outDir : string) : Run :=
  match isDirectory shell outDir with
  | None => mkRun [] (Uncaught "ENOENT")
  | Some false => mkRun [] (Exited 1)
  | Some true => writeGens outDir genNames 0 ∅ []
  end.

End Driver.

(* ===================================================================== *)
(** ** Specifications the claims are stated with *)
(* ===================================================================== *)

(** [sub] occurs in [s]. *)
Definition Substring (sub s : string) : Prop :=
  exists pre post, s = pre ++ sub ++ post.

(** A match that ignores case, which is what a regular expression with the
    [i] flag would do: [sub] occurs in [s] once both are in lower case. *)
Definition includesIgnoringCase (s sub : string) : bool :=
  JS.includes (JS.toLowerCase s) (JS.toLowerCase sub).

(** The half of a stat of a partial table, 31 standing for a stat the table
    lacks: a "DV". *)
Definition halved (ivs : PartialStats) (k : StatID) : Z :=
  (default 31 (objGet ivs k) / 2)%Z.

(** The weights of a list of entries do not increase. *)
Definition nonIncreasing (l : list (string * Q)) : Prop :=
  Sorted (fun a b => (b.2 <= a.2)%Q) l.

(** [k] is the first key of [w] that holds the greatest weight: the keys
    before it weigh less, the keys after it do not weigh more. *)
Definition firstMax (w : Weights) (k : string) : Prop :=
  exists pre q post,
    w = (pre ++ (k, q) :: post)%list
    /\ (forall e, e ∈ pre -> (e.2 < q)%Q)
    /\ (forall e, e ∈ post -> (e.2 <= q)%Q).

(** The set after the first call of the engine, which left [p1]: the move
    of a crowned forme renamed, the ability put back. *)
Definition restored (pset p1 : PokemonSet) : PokemonSet :=
  setAbility (renameCrowned (p_species pset) p1) (p_ability pset).

(** The answer of the adapter once no correction is left to try: a set the
    engine accepts is accepted, a rejected one only under the allowance of
    the fourth generation. *)
Definition answer (format : Format) (pset : PokemonSet)
  (invalid : option (list string)) : bool :=
  match invalid with
  | None => true
  | Some invalid => allowedAnyway format pset invalid
  end.

(** An engine that counts the calls of [validateSet] in its validator. *)
Definition counted (e : LegalityEngine) : LegalityEngine :=
  {| TeamValidator := TeamValidator e * nat;
     newTeamValidator := fun f => (newTeamValidator e f, O);
     validateSet := fun v pset =>
       let '(v', pset', r) := validateSet e v.1 pset in
       ((v', S v.2), pset', r) |}.

(** The calls a validator of [counted e] has seen; none when there is no
    validator yet. *)
Definition calls {e : LegalityEngine}
  (o : option (TeamValidator (counted e))) : nat :=
  match o with
  | Some v => v.2
  | None => O
  end.

(** A store is covered when [statsIgnore] holds its format for its
    species. *)
Definition covered {V} (s : ImportState V) (e : Store) : bool :=
  match ignored (statsIgnore s) (st_specie e) (st_formatID e) with
  | Ok b => b
  | Throw _ => false
  end.

(** What holds while the curated sets are read: the map is what the stores
    built, and every store is a curated one and is covered. *)
Definition dexInv {V} (s : ImportState V) : Prop :=
  calcSets s = replay (stored s)
  /\ forall e, e ∈ stored s -> st_source e = src_dex /\ covered s e = true.

(** What holds while the statistics are read: [statsIgnore] stays [ig], the
    map is what the stores built, the curated stores are covered and the
    stores of statistics are not. *)
Definition statsInv {V} (ig : gmap string (gset string)) (s : ImportState V)
  : Prop :=
  statsIgnore s = ig
  /\ calcSets s = replay (stored s)
  /\ forall e, e ∈ stored s ->
       covered s e = bool_decide (st_source e = src_dex).

(** What the formats of a run are, and where its stores come from: the
    formats are distinct and carry the number of the generation, every store
    is for one of them, and a store of statistics has a page of at least 100
    battles. *)
Definition formatsInv {V} (host : Host) (gen : Generation) (s : ImportState V)
  : Prop :=
  NoDup (formatIDs s)
  /\ (forall F, F ∈ formatIDs s ->
        JS.startsWith F ("gen" ++ pretty (num gen)) = true)
  /\ (forall e, e ∈ stored s -> st_formatID e ∈ formatIDs s)
  /\ (forall e, e ∈ stored s -> st_source e = src_stats ->
        exists page, fetchStats host (st_formatID e) = Some page
                     /\ (100 <= battles page)%Z).

(** The validators the generation of index [j] of a run starts from, when
    the run starts from [v0] and [states] are the states the generations
    ended in: [VALIDATORS] outlives [importGen], so they are those the
    generation before left. *)
Definition validatorsAt {V} (v0 : gmap string V) (states : list (ImportState V))
  (j : nat) : gmap string V :=
  match j with
  | O => v0
  | S j' => from_option VALIDATORS v0 (states !! j')
  end.

(** [s'] comes after [s0] in a pass that only stores: [statsIgnore] and the
    formats are those of [s0], the stores of [s0] are the first stores of
    [s'], and every set name a species has in [s0] it has in [s']. *)
Definition extends {V} (s0 s' : ImportState V) : Prop :=
  statsIgnore s' = statsIgnore s0
  /\ formatIDs s' = formatIDs s0
  /\ (exists more, stored s' = (stored s0 ++ more)%list)
  /\ (forall k label,
        is_Some (calcSets s0 !! k ≫= fun m => m !! label) ->
        is_Some (calcSets s' !! k ≫= fun m => m !! label)).

(** The validators after the adapter ran on each of [jobs] in turn; a job
    is a format and a set. *)
Definition validateAll (e : LegalityEngine) (type : Source)
  (jobs : list (Format * PokemonSet)) (V : Validators e) : Validators e :=
  fold_left (fun V job => (validatePSet e job.1 job.2 type V).2) jobs V.

(** How many of [jobs] are for the format [id]. *)
Definition jobsOf (id : string) (jobs : list (Format * PokemonSet)) : nat :=
  length (List.filter (fun job => String.eqb (f_id job.1) id) jobs).


(** [l.join(sep)] for a one-character separator. *)
Fixpoint joinWith (sep : ascii) (l : list string) : string :=
  match l with
  | [] => ""
  | x :: l' =>
      match l' with
      | [] => x
      | _ :: _ => x ++ String sep (joinWith sep l')
      end
  end.

(** The character occurs in the string. *)
Fixpoint hasChar (c : ascii) (s : string) : bool :=
  match s with
  | EmptyString => false
  | String d s' => Ascii.eqb d c || hasChar c s'
  end.

(** What [fromSpread] keeps of a field of a spread: its number, unless that
    is [NaN] or 0. *)
Definition effort (host : Host) (field : string) : option Z :=
  Number host field ≫= fun ev => if (ev =? 0)%Z then None else Some ev.

(* ===================================================================== *)
(** ** Concrete collaborators, for the examples *)
(* ===================================================================== *)

Module Sample.

(** [Number] on the decimal strings of a spread; the empty string is 0. *)
Definition decimal (s : string) : option Z :=
  match s with
  | EmptyString => Some 0%Z
  | _ =>
      if forallb JS.isDigit (list_ascii_of_string s)
      then JS.digitsFrom None s
      else None
  end.

(** A database in which every format exists, no generation knows a species
    or an item by itself, the modded dex gives an item for every name, no
    item is a stone, and every table gives Hidden Power Dark. *)
Definition db : ReferenceDB :=
  {| formats_get := fun id =>
       mkFormat id (if String.eqb id "gen6ou" then "[Gen 6] OU" else "[Gen] " ++ id)
         true [];
     ruleTable_has := fun _ _ => false;
     gen_species_get := fun _ _ => None;
     modded_species_get := fun _ n => mkSpecie n "Pressure" false n;
     gen_items_get := fun _ _ => None;
     modded_items_get := fun _ _ => Some (mkItem false None None);
     getHiddenPower_type := fun _ _ => "Dark";
     types_HPdvs := fun _ _ => [];
     types_HPivs := fun _ _ => [] |}.


(** An engine that accepts every set and changes nothing. *)
Definition permissive : LegalityEngine :=
  {| TeamValidator := unit;
     newTeamValidator := fun _ => tt;
     validateSet := fun v pset => (v, pset, None) |}.


(** An engine that sets the ability of a mega evolution on every call, and
    wants a shiny set. *)
Definition megaAbility : LegalityEngine :=
  {| TeamValidator := unit;
     newTeamValidator := fun _ => tt;
     validateSet := fun v pset =>
       (v, setAbility pset "Delta Stream",
        if bool_decide (p_shiny pset = Some true) then None
        else Some [p_species pset ++ " must be shiny."]) |}.

Definition plain (species ability : string) : PokemonSet :=
  {| p_name := ""; p_species := species; p_item := ""; p_ability := ability;
     p_moves := ["Protect"]; p_nature := "Hardy"; p_gender := "";
     p_evs := fillStats None 0; p_ivs := fillStats None 31; p_level := 100;
     p_teraType := None; p_hpType := None; p_shiny := None |}.

Definition aegislash : Specie := mkSpecie "Aegislash" "Stance Change" false "Aegislash".
Definition megaRayquaza : Specie := mkSpecie "Rayquaza-Mega" "Delta Stream" true "Rayquaza".

Definition gen6 : Generation := mkGen 6.

Definition kingsShield : DexSet :=
  mkDexSet [Move "King's Shield"; MoveOptions "Shadow Ball" ["Flash Cannon"]]
    None None (Some (One "Leftovers"))
    (Some (Many ["Quiet"; "Modest"])) None None None.

(** Curated sets: one set of Aegislash in OU. *)
Definition dexSets : DexSets :=
  [("Aegislash", [("ou", [("Crumbler", kingsShield)])])].

Definition usage (w : Q) : UsageStatistics :=
  mkUsage w [("Stance Change", 1%Q)] [("Nothing", 0.6%Q); ("Leftovers", 0.4%Q)]
    [("Quiet:252/0/4/252/0/0", 0.5%Q)] [("Shadow Ball", 0.9%Q)].

(** The statistics of OU: two species the curated sets cover, directly or
    by propagation, and two they do not. *)
Definition host : Host :=
  {| Number := decimal;
     fetchStats := fun id =>
       if String.eqb id "gen6ou"
       then Some (mkStatsPage 5000
                    [("Aegislash", usage 0.4%Q);
                     ("Aegislash-Blade", usage 0.2%Q);
                     ("Garchomp", usage 0.3%Q);
                     ("Keldeo", usage 0.1%Q)])
       else None |}.

End Sample.

(* ===================================================================== *)
(** ** Strings *)
(* ===================================================================== *)

Lemma startsWith_spec (s pre : string) :
  JS.startsWith s pre = true <-> exists post, s = pre ++ post.
Proof.
  revert s; induction pre as [|c pre IH]; intros s; simpl.
  - split; [intros _; now exists s | intros _; now destruct s].
  - destruct s as [|d s]; simpl.
    + split; [discriminate | intros [post H]; discriminate].
    + rewrite andb_true_iff, IH, Ascii.eqb_eq. split.
      * intros [-> [post ->]]. now exists post.
      * intros [post H]. injection H as -> ->. split; [reflexivity | now exists post].
Qed.

Lemma includes_cons (d : ascii) (s sub : string) :
  JS.includes (String d s) sub
  = JS.startsWith (String d s) sub || JS.includes s sub.
Proof. reflexivity. Qed.

Lemma includes_spec (s sub : string) :
  JS.includes s sub = true <-> Substring sub s.
Proof.
  induction s as [|d s IH].
  - change (JS.includes "" sub) with (JS.startsWith "" sub || false).
    rewrite orb_false_r, startsWith_spec. split.
    + intros [post H]. now exists "", post.
    + intros [pre [post H]]. destruct pre; [now exists post | discriminate].
  - rewrite includes_cons, orb_true_iff, startsWith_spec, IH. split.
    + intros [[post H] | [pre [post H]]].
      * now exists "", post.
      * exists (String d pre), post. simpl. now rewrite H.
    + intros [pre [post H]]. destruct pre as [|c pre]; simpl in H.
      * left. now exists post.
      * right. injection H as -> H. now exists pre, post.
Qed.

Lemma testAlternation_spec (alts : list string) (s : string) :
  JS.testAlternation alts s = true <-> exists alt, In alt alts /\ Substring alt s.
Proof.
  unfold JS.testAlternation. rewrite existsb_exists.
  split; intros [alt [Hin H]]; exists alt; (split; [exact Hin |]);
    now apply includes_spec.
Qed.

(* ===================================================================== *)
(** ** The usage threshold *)
(* ===================================================================== *)

(** C2, as the claim states it, fails: the pattern has no [i] flag, so an
    identifier that holds [UBER] in upper case holds [uber] when case is
    ignored and still gets 0.01. *)
Lemma C2_case_matters :
  existsb (includesIgnoringCase "gen9UBERS") lowQuality = true
  /\ (400 <= 10000)%Z
  /\ getUsageThreshold "gen9UBERS" 10000 = Finite 0.01
  /\ Finite 0.01 <> Finite 0.03.
Proof. repeat split; (reflexivity || lia || discriminate). Qed.

(** C2, amended: the threshold is [Infinity] below 100 battles, under which
    every weight is below it (99.9 is); 0.05 from 100 to below 400; from 400
    on, 0.03 when [uber], [anythinggoes] or [doublesou] occurs in the
    identifier as it is spelled, and 0.01 otherwise.  On an identifier in
    lower case this is the match that ignores case. *)
Theorem C2_usage_threshold (formatID : string) (count : Z) :
  ((count < 100)%Z ->
     getUsageThreshold formatID count = Infinity
     /\ forall weighted, belowThreshold weighted (getUsageThreshold formatID count) = true)
  /\ ((100 <= count < 400)%Z -> getUsageThreshold formatID count = Finite 0.05)
  /\ ((400 <= count)%Z ->
        (exists alt, In alt ["uber"; "anythinggoes"; "doublesou"]
                     /\ Substring alt formatID) ->
        getUsageThreshold formatID count = Finite 0.03)
  /\ ((400 <= count)%Z ->
        ~ (exists alt, In alt ["uber"; "anythinggoes"; "doublesou"]
                       /\ Substring alt formatID) ->
        getUsageThreshold formatID count = Finite 0.01)
  /\ (JS.toLowerCase formatID = formatID ->
        JS.testAlternation lowQuality formatID
        = existsb (includesIgnoringCase formatID) lowQuality)
  /\ belowThreshold 99.9 (getUsageThreshold formatID 50) = true
  /\ getUsageThreshold formatID 200 = Finite 0.05
  /\ getUsageThreshold "gen9ubers" 10000 = Finite 0.03
  /\ getUsageThreshold "gen9ou" 10000 = Finite 0.01.
Proof.
  unfold getUsageThreshold.
  repeat split; try reflexivity.
  - destruct (Z.ltb_spec count 100); [reflexivity | lia].
  - intros w. destruct (Z.ltb_spec count 100); [reflexivity | lia].
  - intros [H1 H2].
    destruct (Z.ltb_spec count 100); [lia |].
    destruct (Z.ltb_spec count 400); [reflexivity | lia].
  - intros H Halt. apply (testAlternation_spec lowQuality) in Halt.
    destruct (Z.ltb_spec count 100); [lia |].
    destruct (Z.ltb_spec count 400); [lia |].
    now rewrite Halt.
  - intros H Halt.
    destruct (Z.ltb_spec count 100); [lia |].
    destruct (Z.ltb_spec count 400); [lia |].
    destruct (JS.testAlternation lowQuality formatID) eqn:E; [| reflexivity].
    exfalso. apply Halt. now apply (testAlternation_spec lowQuality).
  - intros Hlow. unfold JS.testAlternation, includesIgnoringCase, lowQuality.
    simpl. now rewrite Hlow.
Qed.

(** Doubles OU at 400 battles. *)
Lemma C2_usage_threshold_witness :
  getUsageThreshold "gen9doublesou" 400 = Finite 0.03.
Proof.
  destruct (C2_usage_threshold "gen9doublesou" 400) as (_ & _ & H & _).
  apply H; [lia |].
  exists "doublesou". split; [simpl; tauto | now exists "gen9", ""].
Defined.

(* ===================================================================== *)
(** ** The generation-2 HP *)
(* ===================================================================== *)

Lemma rem2_nonneg (a : Z) : (0 <= a)%Z -> Z.rem a 2 = (a mod 2)%Z.
Proof. intros H. apply Z.rem_mod_nonneg; lia. Qed.

Lemma rem2_even (a : Z) : Z.even a = true -> Z.rem a 2 = 0%Z.
Proof.
  intros H. apply Z.even_spec in H. destruct H as [b ->].
  rewrite Z.mul_comm. apply Z.rem_mul. lia.
Qed.

Lemma rem2_odd (a : Z) : (0 <= a)%Z -> Z.odd a = true -> Z.rem a 2 = 1%Z.
Proof.
  intros Hpos H. rewrite rem2_nonneg by exact Hpos.
  rewrite Zmod_odd. now rewrite H.
Qed.

(** C3, as the claim states it, fails: 30 halves to 15, which is odd, so the
    table of four 30s gives 30 and not 0. *)
Lemma C3_thirty_gives_thirty :
  expectedHP [(atk, 30); (def, 30); (spe, 30); (spa, 30)]%Z = 30%Z
  /\ 30%Z <> 0%Z.
Proof. split; [reflexivity | discriminate]. Qed.

(** C3, amended: a stat the table lacks counts as 31, each of atk, def, spe
    and spa is halved (rounding down), and HP is twice the sum of the low
    bits of the halves weighted 8, 4, 2 and 1, where the low bit is the
    remainder [%] (the mathematical [mod] when no value is negative).  HP is
    30 when the four halves are odd, as on the table of four 30s, whose
    halves are 15, and 0 when they are even, as on the table of four 28s. *)
Theorem C3_expectedHP (ivs : PartialStats) :
  expectedHP ivs
  = (2 * (8 * Z.rem (halved ivs atk) 2 + 4 * Z.rem (halved ivs def) 2
          + 2 * Z.rem (halved ivs spe) 2 + 1 * Z.rem (halved ivs spa) 2))%Z
  /\ ((forall k, 0 <= default 31 (objGet ivs k))%Z ->
      expectedHP ivs
      = (2 * (8 * (halved ivs atk mod 2) + 4 * (halved ivs def mod 2)
              + 2 * (halved ivs spe mod 2) + 1 * (halved ivs spa mod 2)))%Z)
  /\ ((forall k, 0 <= default 31 (objGet ivs k) /\ Z.odd (halved ivs k) = true)%Z ->
      expectedHP ivs = 30%Z)
  /\ ((forall k, Z.even (halved ivs k) = true) -> expectedHP ivs = 0%Z)
  /\ expectedHP [(atk, 30); (def, 30); (spe, 30); (spa, 30)]%Z = 30%Z
  /\ expectedHP [(atk, 28); (def, 28); (spe, 28); (spa, 28)]%Z = 0%Z.
Proof.
  assert (E : expectedHP ivs
    = (2 * (8 * Z.rem (halved ivs atk) 2 + 4 * Z.rem (halved ivs def) 2
            + 2 * Z.rem (halved ivs spe) 2 + 1 * Z.rem (halved ivs spa) 2))%Z).
  { unfold expectedHP, halved, fillStats.
    cbn [s_atk s_def s_spe s_spa mbind option_bind]. ring. }
  assert (Hpos : forall k, (0 <= default 31 (objGet ivs k))%Z -> (0 <= halved ivs k)%Z).
  { intros k H. unfold halved. apply Z.div_pos; lia. }
  split; [exact E |]. split; [| split; [| split; [| split; reflexivity]]].
  - intros H. rewrite E. rewrite !rem2_nonneg by (apply Hpos, H). reflexivity.
  - intros H. rewrite E.
    rewrite !rem2_odd by (try apply Hpos; apply H). reflexivity.
  - intros H. rewrite E. rewrite !rem2_even by apply H. reflexivity.
Qed.

(** A table whose four halves, 15, 15, 7 and 3, are odd. *)
Lemma C3_expectedHP_witness :
  expectedHP [(atk, 31); (def, 30); (spe, 15); (spa, 7)]%Z = 30%Z.
Proof.
  destruct (C3_expectedHP [(atk, 31); (def, 30); (spe, 15); (spa, 7)]%Z)
    as (_ & _ & H & _).
  apply H. intros k. destruct k; split; (reflexivity || (vm_compute; discriminate)).
Defined.

(** In generation 2 the reconciler stores this value as HP: when the set has
    a Hidden Power of a type its table does not give, the table takes the
    doubled template and HP is derived from the result. *)
Lemma reconcile_gen2_hp (db : ReferenceDB) (gen : Generation)
  (pset : PokemonSet) (move : string) :
  num gen = 2%Z ->
  List.find (fun m => JS.startsWith m "Hidden Power") (p_moves pset) = Some move ->
  JS.slice move 13 <> "" ->
  getHiddenPower_type db 2 (p_ivs pset) <> JS.slice move 13 ->
  let ivs := assign (p_ivs pset)
               (map (fun e => (e.1, (e.2 * 2)%Z))
                    (types_HPdvs db 2 (JS.slice move 13))) in
  p_ivs (reconcile db gen pset) = setStat ivs hp (expectedHP (entries ivs)).
Proof.
  intros Hgen Hfind Hty Hne. unfold reconcile. rewrite Hfind, Hgen.
  unfold JS.truthy.
  destruct (String.eqb_spec (JS.slice move 13) ""); [contradiction |].
  destruct (String.eqb_spec (getHiddenPower_type db 2 (p_ivs pset)) (JS.slice move 13));
    [contradiction |].
  reflexivity.
Qed.

(* ===================================================================== *)
(** ** The stat-table normalizer *)
(* ===================================================================== *)

Section Objects.

Context {K V : Type} `{EqDecision K}.

Lemma objGet_cons (e : K * V) (o : list (K * V)) (k : K) :
  objGet (e :: o) k = if bool_decide (e.1 = k) then Some e.2 else objGet o k.
Proof. unfold objGet. simpl. now destruct (bool_decide (e.1 = k)). Qed.

Lemma objGet_objSet (o : list (K * V)) (k k' : K) (v : V) :
  objGet (objSet o k v) k' = if bool_decide (k = k') then Some v else objGet o k'.
Proof.
  induction o as [|e o IH]; simpl.
  - rewrite objGet_cons. reflexivity.
  - destruct (bool_decide_reflect (e.1 = k)) as [He | He].
    + rewrite !objGet_cons. simpl. rewrite He.
      now destruct (bool_decide (k = k')).
    + rewrite !objGet_cons, IH.
      destruct (bool_decide_reflect (e.1 = k')) as [He' | He']; [| reflexivity].
      destruct (bool_decide_reflect (k = k')) as [Hk | Hk]; [| reflexivity].
      congruence.
Qed.

Lemma objGet_None (o : list (K * V)) (k : K) :
  k ∉ map fst o -> objGet o k = None.
Proof.
  induction o as [|e o IH]; [reflexivity |]. simpl. intros Hk.
  apply not_elem_of_cons in Hk as [Hne Hk].
  rewrite objGet_cons.
  destruct (bool_decide_reflect (e.1 = k)) as [He | He]; [congruence |].
  now apply IH.
Qed.

Lemma objSet_keys (o : list (K * V)) (k : K) (v : V) :
  map fst (objSet o k v)
  = if bool_decide (k ∈ map fst o) then map fst o else (map fst o ++ [k])%list.
Proof.
  induction o as [|e o IH]; simpl.
  - reflexivity.
  - destruct (bool_decide_reflect (e.1 = k)) as [He | He]; simpl.
    + rewrite bool_decide_eq_true_2 by (rewrite He; apply list_elem_of_here).
      now rewrite He.
    + rewrite IH.
      destruct (bool_decide_reflect (k ∈ map fst o)) as [Hin | Hin].
      * rewrite bool_decide_eq_true_2 by now apply list_elem_of_further.
        reflexivity.
      * rewrite bool_decide_eq_false_2; [reflexivity |].
        apply not_elem_of_cons. split; [congruence | exact Hin].
Qed.

Lemma objSet_wf (o : list (K * V)) (k : K) (v : V) :
  wfObj o -> wfObj (objSet o k v).
Proof.
  unfold wfObj. intros Hnd. rewrite objSet_keys.
  destruct (bool_decide_reflect (k ∈ map fst o)) as [Hin | Hin];
    [exact Hnd |].
  apply NoDup_app. repeat split.
  - exact Hnd.
  - intros x Hx Hx'. apply list_elem_of_singleton in Hx'. congruence.
  - apply NoDup_singleton.
Qed.

End Objects.

Lemma calcKey_inj (a b : StatID) : calcKey a = calcKey b -> a = b.
Proof. destruct a, b; simpl; congruence. Qed.

Lemma condense_fold (ignoreVal : Z) (stats : PartialStats) :
  forall (acc : PartialCalcStats) (stat : StatID),
    wfObj stats ->
    objGet (fold_left (condense ignoreVal) stats acc) (calcKey stat)
    = match objGet stats stat with
      | Some v => if (v =? ignoreVal)%Z then objGet acc (calcKey stat) else Some v
      | None => objGet acc (calcKey stat)
      end.
Proof.
  induction stats as [|[k v] stats IH]; intros acc stat Hwf; [reflexivity |].
  unfold wfObj in Hwf. simpl in Hwf. apply NoDup_cons in Hwf as [Hk Hwf].
  simpl fold_left. rewrite (IH _ _ Hwf), objGet_cons. simpl.
  destruct (bool_decide_reflect (k = stat)) as [-> | Hne].
  - rewrite (objGet_None stats stat Hk). unfold condense. simpl.
    destruct (v =? ignoreVal)%Z; [reflexivity |].
    rewrite objGet_objSet. now rewrite bool_decide_eq_true_2.
  - assert (E : objGet (condense ignoreVal acc (k, v)) (calcKey stat)
                = objGet acc (calcKey stat)).
    { unfold condense. simpl. destruct (v =? ignoreVal)%Z; [reflexivity |].
      rewrite objGet_objSet. rewrite bool_decide_eq_false_2; [reflexivity |].
      intros Heq. apply Hne. now apply calcKey_inj. }
    now rewrite E.
Qed.

Lemma condense_wf (ignoreVal : Z) (stats : PartialStats) :
  forall acc, wfObj acc -> wfObj (fold_left (condense ignoreVal) stats acc).
Proof.
  induction stats as [|e stats IH]; intros acc Hacc; [exact Hacc |].
  simpl. apply IH. unfold condense.
  destruct (e.2 =? ignoreVal)%Z; [exact Hacc | now apply objSet_wf].
Qed.

Lemma entries_wf (t : StatsTable) : wfObj (entries t).
Proof.
  unfold wfObj, entries, statIDs. simpl. compute_done.
Qed.

Lemma entries_get (t : StatsTable) (k : StatID) :
  objGet (entries t) k = Some (getStat t k).
Proof. now destruct k. Qed.

(** C6: the condensed table of a stat table has an entry for a stat exactly
    when the table has that stat with a value other than the ignore value,
    and the entry is that value; its keys are distinct; and expanding the
    condensed table of a full table with the ignore value as fill gives the
    full table back. *)
Theorem C6_normalizer_round_trip (stats : PartialStats) (ignoreVal : Z) :
  wfObj stats ->
  (forall stat v,
      objGet (toCalcStatsTable stats ignoreVal) (calcKey stat) = Some v
      <-> objGet stats stat = Some v /\ v <> ignoreVal)
  /\ wfObj (toCalcStatsTable stats ignoreVal)
  /\ (forall t : StatsTable,
        expandCalcStats (toCalcStatsTable (entries t) ignoreVal) ignoreVal = t).
Proof.
  intros Hwf. split; [| split].
  - intros stat v. unfold toCalcStatsTable.
    rewrite (condense_fold ignoreVal stats [] stat Hwf).
    destruct (objGet stats stat) as [w |]; [| split; [discriminate | intros [? _]; discriminate]].
    destruct (Z.eqb_spec w ignoreVal) as [-> | Hw].
    + split; [discriminate | intros [E Hv]; congruence].
    + split; [intros E; injection E as <-; tauto | tauto].
  - apply (condense_wf ignoreVal stats []). apply NoDup_nil_2.
  - intros t. unfold expandCalcStats, toCalcStatsTable.
    assert (E : forall k,
      default ignoreVal
        (objGet (fold_left (condense ignoreVal) (entries t) []) (calcKey k))
      = getStat t k).
    { intros k. rewrite (condense_fold ignoreVal _ [] k (entries_wf t)), entries_get.
      destruct (Z.eqb_spec (getStat t k) ignoreVal) as [-> | Hw]; reflexivity. }
    rewrite !E. now destruct t.
Qed.

(** A spread of three stats, one of them at the ignore value. *)
Lemma C6_normalizer_round_trip_witness :
  objGet (toCalcStatsTable [(hp, 4); (spe, 252); (atk, 0)]%Z 0) c_sp = Some 252%Z.
Proof.
  assert (Hwf : wfObj [(hp, 4); (spe, 252); (atk, 0)]%Z).
  { unfold wfObj. simpl. compute_done. }
  destruct (C6_normalizer_round_trip [(hp, 4); (spe, 252); (atk, 0)]%Z 0 Hwf)
    as (H & _).
  apply (H spe 252%Z). split; [reflexivity | discriminate].
Defined.

(* ===================================================================== *)
(** ** The weighted selector *)
(* ===================================================================== *)

Lemma Qltb_lt (a b : Q) : Qltb a b = true <-> (a < b)%Q.
Proof.
  unfold Qltb. rewrite negb_true_iff. split.
  - intros H. apply Qnot_le_lt. intros Hle.
    apply Qle_bool_iff in Hle. congruence.
  - intros H. destruct (Qle_bool b a) eqn:E; [| reflexivity].
    apply Qle_bool_iff in E. exfalso. now apply (Qlt_not_le a b).
Qed.

Lemma Qltb_ge (a b : Q) : Qltb a b = false <-> (b <= a)%Q.
Proof.
  unfold Qltb. rewrite negb_false_iff. apply Qle_bool_iff.
Qed.

Lemma weightOf_cons (e : string * Q) (w : Weights) (k : string) :
  weightOf (e :: w) k = if String.eqb e.1 k then Some e.2 else weightOf w k.
Proof. unfold weightOf. simpl. now destruct (String.eqb e.1 k). Qed.

Lemma weightOf_entry (w : Weights) (k : string) (q : Q) :
  wfObj w -> (k, q) ∈ w -> weightOf w k = Some q.
Proof.
  unfold wfObj. induction w as [|e w IH]; intros Hwf Hin.
  - now apply elem_of_nil in Hin.
  - simpl in Hwf. apply NoDup_cons in Hwf as [Hk Hwf].
    rewrite weightOf_cons. apply elem_of_cons in Hin as [He | Hin].
    + subst e. simpl. now rewrite String.eqb_refl.
    + destruct (String.eqb_spec e.1 k) as [He | He]; [| now apply IH].
      exfalso. apply Hk. rewrite He.
      apply (list_elem_of_fmap_2 fst w (k, q)), Hin.
Qed.

(** The loop of the [n === 1] branch, from any point of the enumeration on:
    when the best key so far is the first greatest of the entries seen, the
    key the loop ends with is the first greatest of all. *)
Lemma topMax_loop (w : Weights) :
  wfObj w ->
  (forall e, e ∈ w -> e.1 <> "") ->
  forall (rest seen : list (string * Q)) (max : option string),
    w = (seen ++ rest)%list ->
    match max with
    | None => seen = []
    | Some k => firstMax seen k
    end ->
    match fold_left (topStep w) rest max with
    | None => w = []
    | Some k => firstMax w k
    end.
Proof.
  intros Hwf Hkeys rest.
  induction rest as [|[k' q'] rest IH]; intros seen max Hw Hmax.
  - rewrite app_nil_r in Hw. subst seen. simpl. exact Hmax.
  - simpl fold_left.
    assert (Hin' : (k', q') ∈ w).
    { rewrite Hw. apply elem_of_app. right. apply list_elem_of_here. }
    apply (IH (seen ++ [(k', q')])%list).
    + now rewrite <- app_assoc.
    + unfold topStep. simpl fst.
      destruct max as [k |]; simpl unset.
      * destruct Hmax as (pre & q & post & Hseen & Hpre & Hpost).
        assert (Hin : (k, q) ∈ w).
        { rewrite Hw, Hseen. apply elem_of_app. left.
          apply elem_of_app. right. apply list_elem_of_here. }
        assert (Hk : JS.truthy k = true).
        { unfold JS.truthy. destruct (String.eqb_spec k "") as [Hk |];
            [| reflexivity].
          exfalso. exact (Hkeys _ Hin Hk). }
        rewrite Hk. simpl.
        rewrite (weightOf_entry w k q Hwf Hin), (weightOf_entry w k' q' Hwf Hin').
        simpl. destruct (Qltb q q') eqn:E.
        -- apply Qltb_lt in E. exists seen, q', []. repeat split.
           ++ intros e He. rewrite Hseen in He.
              apply elem_of_app in He as [He | He].
              ** apply Qlt_trans with q; [now apply Hpre | exact E].
              ** apply elem_of_cons in He as [-> | He]; [exact E |].
                 apply Qle_lt_trans with q; [now apply Hpost | exact E].
           ++ intros e He. now apply elem_of_nil in He.
        -- apply Qltb_ge in E. exists pre, q, (post ++ [(k', q')])%list.
           repeat split.
           ++ rewrite Hseen. now rewrite <- app_assoc.
           ++ exact Hpre.
           ++ intros e He. apply elem_of_app in He as [He | He];
                [now apply Hpost |].
              apply list_elem_of_singleton in He. now subst e.
      * subst seen. simpl. exists [], q', []. repeat split.
        -- intros e He. now apply elem_of_nil in He.
        -- intros e He. now apply elem_of_nil in He.
Qed.

(** Without an empty key, the [n === 1] branch gives the first key of
    greatest weight of a map that has a key. *)
Lemma top_one_first_max (w : Weights) :
  wfObj w ->
  (forall e, e ∈ w -> e.1 <> "") ->
  w <> [] ->
  exists k, top w 1 = TopKey k /\ firstMax w k.
Proof.
  intros Hwf Hkeys Hne. unfold top, topMax. simpl.
  pose proof (topMax_loop w Hwf Hkeys w [] None eq_refl eq_refl) as H.
  destruct (fold_left (topStep w) w None) as [k |]; [| contradiction].
  now exists k.
Qed.

Lemma top_zero (w : Weights) : top w 0 = TopUndefined.
Proof. reflexivity. Qed.

Lemma top_one_empty : top [] 1 = TopUndefined.
Proof. reflexivity. Qed.

Lemma insertDesc_length (a : string * Q) (l : list (string * Q)) :
  length (insertDesc a l) = S (length l).
Proof.
  induction l as [|b l IH]; [reflexivity |]. simpl.
  destruct (Qle_bool b.2 a.2); simpl; [reflexivity | now rewrite IH].
Qed.

Lemma sortDesc_length (l : list (string * Q)) :
  length (sortDesc l) = length l.
Proof.
  induction l as [|a l IH]; [reflexivity |]. simpl.
  now rewrite insertDesc_length, IH.
Qed.

Lemma insertDesc_perm (a : string * Q) (l : list (string * Q)) :
  insertDesc a l ≡ₚ a :: l.
Proof.
  induction l as [|b l IH]; [reflexivity |]. simpl.
  destruct (Qle_bool b.2 a.2); [reflexivity |].
  rewrite IH. apply Permutation_swap.
Qed.

Lemma sortDesc_perm (l : list (string * Q)) : sortDesc l ≡ₚ l.
Proof.
  induction l as [|a l IH]; [reflexivity |]. simpl.
  now rewrite insertDesc_perm, IH.
Qed.

Lemma insertDesc_sorted (a : string * Q) (l : list (string * Q)) :
  nonIncreasing l -> nonIncreasing (insertDesc a l).
Proof.
  unfold nonIncreasing. induction l as [|b l IH]; intros Hs; simpl.
  - repeat constructor.
  - destruct (Qle_bool b.2 a.2) eqn:E.
    + apply Qle_bool_iff in E. constructor; [exact Hs | now constructor].
    + assert (Hab : (a.2 <= b.2)%Q).
      { apply Qlt_le_weak, Qnot_le_lt. intros Hle.
        apply Qle_bool_iff in Hle. congruence. }
      inversion Hs as [| ? ? Hs' Hhd]; subst.
      constructor; [now apply IH |].
      destruct l as [|c l]; simpl.
      * now constructor.
      * destruct (Qle_bool c.2 a.2); constructor; [exact Hab |].
        now inversion Hhd.
Qed.

Lemma sortDesc_sorted (l : list (string * Q)) : nonIncreasing (sortDesc l).
Proof.
  induction l as [|a l IH]; simpl; [constructor | now apply insertDesc_sorted].
Qed.

Lemma take_sorted (n : nat) (l : list (string * Q)) :
  nonIncreasing l -> nonIncreasing (take n l).
Proof.
  unfold nonIncreasing. revert n.
  induction l as [|a l IH]; intros n Hs; destruct n; simpl;
    try constructor.
  - inversion Hs; subst. now apply IH.
  - inversion Hs as [| ? ? Hs' Hhd]; subst.
    destruct l as [|b l]; destruct n; simpl; constructor.
    now inversion Hhd.
Qed.

(** The general branch, for a count of two or more: as many keys as asked
    for, or all when there are fewer; they are the keys of the first entries
    of a rearrangement of the map whose weights do not increase. *)
Lemma top_many (w : Weights) (n : Z) :
  (2 <= n)%Z ->
  exists es,
    top w n = TopKeys (map fst es)
    /\ es = take (Z.to_nat n) (sortDesc w)
    /\ length (map fst es) = Nat.min (Z.to_nat n) (length w)
    /\ nonIncreasing es
    /\ sortDesc w ≡ₚ w.
Proof.
  intros Hn. exists (take (Z.to_nat n) (sortDesc w)).
  repeat split.
  - unfold top, sliceTo.
    destruct (Z.eqb_spec n 0); [lia |]. destruct (Z.eqb_spec n 1); [lia |].
    destruct (Z.ltb_spec n 0); [lia | reflexivity].
  - rewrite length_map, length_take, sortDesc_length. reflexivity.
  - apply take_sorted, sortDesc_sorted.
  - apply sortDesc_perm.
Qed.

(** C7 fails on the code: [!max] is also true of the empty string, so a
    first key that is empty and holds the greatest weight loses to the key
    after it, which the general branch, that this branch is a shortcut of,
    does not do. *)
Theorem C7_top_empty_key_loses :
  wfObj [("", 2%Q); ("a", 1%Q)]
  /\ top [("", 2%Q); ("a", 1%Q)] 1 = TopKey "a"
  /\ weightOf [("", 2%Q); ("a", 1%Q)] "a" = Some 1%Q
  /\ firstMax [("", 2%Q); ("a", 1%Q)] ""
  /\ top [("", 2%Q); ("a", 1%Q)] 2 = TopKeys [""; "a"].
Proof.
  split; [unfold wfObj; simpl; compute_done |].
  repeat split.
  exists [], 2%Q, [("a", 1%Q)]. repeat split.
  - intros e He. now apply elem_of_nil in He.
  - intros e He. apply list_elem_of_singleton in He. subst e. simpl.
    discriminate.
Qed.

(* ===================================================================== *)
(** ** The forme resolver *)
(* ===================================================================== *)

(** A set that is not a Rayquaza skips the first rule. *)
Lemma similarFormes_later (db : ReferenceDB) (pset : PokemonSet)
  (format : option Format) (specie : Specie) (item : option Item) :
  p_species pset <> "Rayquaza" ->
  similarFormes db pset format specie item
  = Ok (laterFormes pset format specie item).
Proof.
  intros Hne. unfold similarFormes.
  destruct format as [f |]; [| reflexivity].
  destruct (String.eqb_spec (p_species pset) "Rayquaza"); [contradiction |].
  reflexivity.
Qed.

Lemma stepsBack_spec (format : Format) :
  stepsBack format = true
  <-> ~ Substring "balancedhackmons" (f_id format)
      \/ Substring "bh" (f_id format).
Proof.
  unfold stepsBack. rewrite orb_true_iff, negb_true_iff.
  rewrite <- !includes_spec.
  destruct (JS.includes (f_id format) "balancedhackmons");
    destruct (JS.includes (f_id format) "bh"); intuition congruence.
Qed.

(** C4, as the claim states it, fails: in Balanced Hackmons the guard of the
    step back is false, and the table of fixed formes still sends
    Rayquaza-Mega to Rayquaza.  (In Anything Goes itself, whose identifier
    holds neither [balancedhackmons] nor [bh], the guard is true and the
    resolver steps back.) *)
Lemma C4_table_steps_back_too :
  stepsBack (mkFormat "gen7balancedhackmons" "[Gen 7] Balanced Hackmons" true [])
  = false
  /\ similarFormes Sample.db (Sample.plain "Rayquaza-Mega" "Delta Stream")
       (Some (mkFormat "gen7balancedhackmons" "[Gen 7] Balanced Hackmons" true []))
       Sample.megaRayquaza None
     = Ok (Some ["Rayquaza"])
  /\ stepsBack (mkFormat "gen7anythinggoes" "[Gen 7] Anything Goes" true [])
     = true
  /\ similarFormes Sample.db (Sample.plain "Rayquaza-Mega" "Delta Stream")
       (Some (mkFormat "gen7anythinggoes" "[Gen 7] Anything Goes" true []))
       Sample.megaRayquaza None
     = Ok (Some ["Rayquaza"]).
Proof. repeat split. Qed.

(** The table of fixed formes has the step back too: when the guard fails
    and neither the ability nor the item decides, the species Rayquaza-Mega
    goes to Rayquaza all the same. *)
Lemma rayquaza_mega_by_table (db : ReferenceDB) (pset : PokemonSet)
  (format : option Format) (specie : Specie) (item : option Item) :
  p_species pset = "Rayquaza-Mega" ->
  match format with Some f => stepsBack f | None => false end = false ->
  p_ability pset <> "Power Construct" ->
  stoneOf specie item = false ->
  sp_name specie = "Rayquaza-Mega" ->
  similarFormes db pset format specie item = Ok (Some ["Rayquaza"]).
Proof.
  intros Hsp Hguard Hab Hstone Hname.
  assert (Hne : p_species pset <> "Rayquaza") by (rewrite Hsp; discriminate).
  rewrite (similarFormes_later db pset format specie item Hne).
  unfold laterFormes. rewrite Hsp, Hguard, Hstone, Hname. simpl.
  destruct (String.eqb_spec (p_ability pset) "Power Construct");
    [contradiction | reflexivity].
Qed.

(** C4, amended: for a set whose species is Rayquaza-Mega and a format, the
    resolver gives exactly Rayquaza whenever the identifier of the format
    does not hold [balancedhackmons] or holds [bh].  (Not the converse: when
    this guard fails the later rules decide.) *)
Theorem C4_rayquaza_mega_steps_back (db : ReferenceDB) (pset : PokemonSet)
  (format : Format) (specie : Specie) (item : option Item) :
  p_species pset = "Rayquaza-Mega" ->
  (~ Substring "balancedhackmons" (f_id format)
   \/ Substring "bh" (f_id format)) ->
  similarFormes db pset (Some format) specie item = Ok (Some ["Rayquaza"]).
Proof.
  intros Hsp Hguard.
  assert (Hne : p_species pset <> "Rayquaza") by (rewrite Hsp; discriminate).
  rewrite (similarFormes_later db pset (Some format) specie item Hne).
  unfold laterFormes. rewrite Hsp. simpl String.eqb.
  apply stepsBack_spec in Hguard. now rewrite Hguard.
Qed.

(** The step back in Anything Goes. *)
Lemma C4_rayquaza_mega_steps_back_witness :
  similarFormes Sample.db (Sample.plain "Rayquaza-Mega" "Delta Stream")
    (Some (mkFormat "gen7anythinggoes" "[Gen 7] Anything Goes" true []))
    Sample.megaRayquaza None
  = Ok (Some ["Rayquaza"]).
Proof.
  apply (C4_rayquaza_mega_steps_back Sample.db
           (Sample.plain "Rayquaza-Mega" "Delta Stream")
           (mkFormat "gen7anythinggoes" "[Gen 7] Anything Goes" true [])
           Sample.megaRayquaza None eq_refl).
  left. intros Hsub. apply includes_spec in Hsub. discriminate Hsub.
Defined.

(** C8, as the claim states it, fails: the rule of Power Construct comes
    before the table, so an Aegislash with that ability, which a ruleset
    without ability restrictions accepts, goes to Zygarde-Complete. *)
Lemma C8_power_construct_first :
  (validatePSet Sample.permissive
     (mkFormat "gen7balancedhackmons" "[Gen 7] Balanced Hackmons" true [])
     (Sample.plain "Aegislash" "Power Construct") src_dex ∅).1.1 = true
  /\ similarFormes Sample.db (Sample.plain "Aegislash" "Power Construct")
       (Some (mkFormat "gen7balancedhackmons" "[Gen 7] Balanced Hackmons" true []))
       Sample.aegislash None
     = Ok (Some ["Zygarde-Complete"]).
Proof. split; reflexivity. Qed.

(** C8, amended: for a set of Aegislash whose ability is not Power Construct
    and whose item is not a stone of Aegislash, and for every format or
    none, the resolver gives exactly Aegislash-Blade, Aegislash-Shield and
    Aegislash-Both, in this order. *)
Theorem C8_aegislash_targets (db : ReferenceDB) (pset : PokemonSet)
  (format : option Format) (specie : Specie) (item : option Item) :
  p_species pset = "Aegislash" ->
  sp_name specie = "Aegislash" ->
  p_ability pset <> "Power Construct" ->
  stoneOf specie item = false ->
  similarFormes db pset format specie item
  = Ok (Some ["Aegislash-Blade"; "Aegislash-Shield"; "Aegislash-Both"]).
Proof.
  intros Hsp Hname Hab Hstone.
  assert (Hne : p_species pset <> "Rayquaza") by (rewrite Hsp; discriminate).
  rewrite (similarFormes_later db pset format specie item Hne).
  unfold laterFormes. rewrite Hsp, Hstone, Hname. simpl.
  destruct (String.eqb_spec (p_ability pset) "Power Construct");
    [contradiction | reflexivity].
Qed.

(** An Aegislash with its own ability and an item that is no stone. *)
Lemma C8_aegislash_targets_witness :
  similarFormes Sample.db (Sample.plain "Aegislash" "Stance Change")
    (Some (mkFormat "gen6ou" "[Gen 6] OU" true [])) Sample.aegislash
    (Some (mkItem true None None))
  = Ok (Some ["Aegislash-Blade"; "Aegislash-Shield"; "Aegislash-Both"]).
Proof.
  apply (C8_aegislash_targets Sample.db
           (Sample.plain "Aegislash" "Stance Change")
           (Some (mkFormat "gen6ou" "[Gen 6] OU" true [])) Sample.aegislash
           (Some (mkItem true None None)));
    (reflexivity || discriminate).
Defined.

(* ===================================================================== *)
(** ** The validator adapter *)
(* ===================================================================== *)

Lemma renameCrowned_ability (species : string) (pset : PokemonSet) :
  p_ability (renameCrowned species pset) = p_ability pset.
Proof.
  unfold renameCrowned.
  destruct (snd <$> List.find _ crowned); [| reflexivity].
  now destruct (arrayIndexOf (p_moves pset) "ironhead").
Qed.

Lemma restored_ability (pset p1 : PokemonSet) :
  p_ability (restored pset p1) = p_ability pset.
Proof. reflexivity. Qed.

Section AdapterFacts.

Context (e : LegalityEngine).

(** The adapter, by the first result of the engine: accepted at once. *)
Lemma validatePSet_valid (format : Format) (pset : PokemonSet) (type : Source)
  (V : Validators e) v1 p1 :
  validateSet e (validatorOf e format V) pset = (v1, p1, None) ->
  validatePSet e format pset type V
  = (true, restored pset p1, <[f_id format := v1]> V).
Proof. intros E. unfold validatePSet. rewrite E. reflexivity. Qed.


Lemma validatePSet_not_shiny (format : Format) (pset : PokemonSet)
  (type : Source) (V : Validators e) v1 p1 inv1 :
  validateSet e (validatorOf e format V) pset = (v1, p1, Some inv1) ->
  soleViolation inv1 mustBeShiny = false ->
  validatePSet e format pset type V
  = if soleViolation inv1 zeroEVs then
      let '(v2, p2, r2) :=
        validateSet e v1
          (setEvs (restored pset p1) (setStat (p_evs (restored pset p1)) hp 1)) in
      (answer format p2 r2, p2, <[f_id format := v2]> V)
    else (answer format (restored pset p1) (Some inv1), restored pset p1,
          <[f_id format := v1]> V).
Proof.
  intros E1 Hs. unfold validatePSet. rewrite E1.
  fold (restored pset p1). rewrite Hs.
  destruct (soleViolation inv1 zeroEVs).
  - destruct (validateSet e v1 _) as [[v2 p2] [inv2 |]]; simpl;
      [now destruct (allowedAnyway format p2 inv2) | reflexivity].
  - simpl. now destruct (allowedAnyway format (restored pset p1) inv1).
Qed.

(** One call of the adapter is one, two or three calls of the engine. *)
Lemma validatePSet_calls (format : Format) (pset : PokemonSet) (type : Source)
  (V : Validators (counted e)) :
  (calls (V !! f_id format)
   < calls ((validatePSet (counted e) format pset type V).2 !! f_id format)
   <= calls (V !! f_id format) + 3)%nat.
Proof.
  remember (calls (V !! f_id format)) as c0 eqn:Hc0.
  assert (Hnew : (validatorOf (counted e) format V).2 = c0).
  { subst c0. unfold validatorOf, calls. now destruct (V !! f_id format). }
  clear Hc0. unfold validatePSet.
  destruct (validatorOf (counted e) format V) as [v0 n0].
  simpl in Hnew. subst n0.
  simpl validateSet.
  destruct (validateSet e v0 pset) as [[v1 p1] [inv1 |]]; simpl;
    [| rewrite lookup_insert_eq; simpl; lia].
  destruct (soleViolation inv1 mustBeShiny); simpl.
  - destruct (validateSet e v1 _) as [[v2 p2] [inv2 |]]; simpl;
      [| rewrite lookup_insert_eq; simpl; lia].
    destruct (soleViolation inv2 zeroEVs); simpl.
    + destruct (validateSet e v2 _) as [[v3 p3] [inv3 |]]; simpl;
        [destruct (allowedAnyway format p3 inv3) |];
        simpl; rewrite lookup_insert_eq; simpl; lia.
    + destruct (allowedAnyway format p2 inv2);
        simpl; rewrite lookup_insert_eq; simpl; lia.
  - destruct (soleViolation inv1 zeroEVs); simpl.
    + destruct (validateSet e v1 _) as [[v2 p2] [inv2 |]]; simpl;
        [destruct (allowedAnyway format p2 inv2) |];
        simpl; rewrite lookup_insert_eq; simpl; lia.
    + destruct (allowedAnyway format _ inv1);
        simpl; rewrite lookup_insert_eq; simpl; lia.
Qed.

End AdapterFacts.




(** Without a retry the ability is the one the set came with, whatever the
    engine did to it. *)
Lemma validatePSet_keeps_ability (e : LegalityEngine) (format : Format)
  (pset : PokemonSet) (type : Source) (V : Validators e) v1 p1 r1 :
  validateSet e (validatorOf e format V) pset = (v1, p1, r1) ->
  match r1 with
  | None => True
  | Some inv1 =>
      soleViolation inv1 mustBeShiny = false
      /\ soleViolation inv1 zeroEVs = false
  end ->
  p_ability (validatePSet e format pset type V).1.2 = p_ability pset.
Proof.
  intros E1 Hr. destruct r1 as [inv1 |].
  - destruct Hr as [Hs Hz].
    rewrite (validatePSet_not_shiny e format pset type V _ _ _ E1 Hs), Hz.
    reflexivity.
  - rewrite (validatePSet_valid e format pset type V _ _ E1). reflexivity.
Qed.

(** C9 fails on the code: the ability is put back after the first call of
    the engine only.  With an engine that sets the ability of the mega
    evolution on every call and wants the set shiny, the retry leaves the
    set, which is accepted, with the engine's ability and not its own. *)
Theorem C9_ability_lost_on_retry :
  p_ability (Sample.plain "Rayquaza" "Air Lock") = "Air Lock"
  /\ validatePSet Sample.megaAbility (mkFormat "gen7ubers" "[Gen 7] Ubers" true [])
       (Sample.plain "Rayquaza" "Air Lock") src_stats ∅
     = (true,
        setAbility (setShiny (Sample.plain "Rayquaza" "Air Lock") true)
          "Delta Stream",
        {["gen7ubers" := tt]})
  /\ p_ability
       (validatePSet Sample.megaAbility
          (mkFormat "gen7ubers" "[Gen 7] Ubers" true [])
          (Sample.plain "Rayquaza" "Air Lock") src_stats ∅).1.2
     = "Delta Stream".
Proof. repeat split. Qed.

(* ===================================================================== *)
(** ** The generation importer *)
(* ===================================================================== *)

Lemma forEach_inv {A S} (P : S -> Prop) (body : S -> A -> Result S) :
  (forall s x s', P s -> body s x = Ok s' -> P s') ->
  forall l s s', P s -> forEach body l s = Ok s' -> P s'.
Proof.
  intros Hbody l. induction l as [|x l IH]; intros s s' Hs E; simpl in E.
  - injection E as <-. exact Hs.
  - destruct (body s x) as [s1 | m] eqn:E1; simpl in E; [| discriminate].
    exact (IH s1 s' (Hbody s x s1 Hs E1) E).
Qed.

Lemma replay_snoc (l : list Store) (e : Store) :
  replay (l ++ [e])
  = assignSet (replay l) (st_specie e) (st_setName e) (st_calcSet e).
Proof. unfold replay. now rewrite fold_left_app. Qed.

(** An entry of the map that the stores built is the set of one of them. *)
Lemma replay_lookup (l : list Store) (k label : string) (c : CalcSet) :
  replay l !! k ≫= (fun m => m !! label) = Some c ->
  exists e, e ∈ l /\ st_specie e = k /\ st_setName e = label /\ st_calcSet e = c.
Proof.
  induction l as [|e l IH] using rev_ind.
  - unfold replay. simpl. rewrite lookup_empty. discriminate.
  - rewrite replay_snoc. unfold assignSet. intros H.
    assert (Hold : replay l !! k ≫= (fun m => m !! label) = Some c ->
                   exists e', e' ∈ (l ++ [e])%list /\ st_specie e' = k
                              /\ st_setName e' = label /\ st_calcSet e' = c).
    { intros H'. destruct (IH H') as (e' & Hin & He').
      exists e'. split; [apply elem_of_app; now left | exact He']. }
    destruct (JS.isInherited (st_specie e)); [exact (Hold H) |].
    destruct (decide (st_specie e = k)) as [Hk | Hk].
    + rewrite Hk, lookup_insert_eq in H. simpl in H.
      assert (Hsets : default ∅ (replay l !! k) !! label = Some c ->
                      replay l !! k ≫= (fun m => m !! label) = Some c).
      { destruct (replay l !! k) as [m |]; simpl; [tauto |].
        rewrite lookup_empty. discriminate. }
      destruct (String.eqb (st_setName e) "__proto__"); [exact (Hold (Hsets H)) |].
      destruct (decide (st_setName e = label)) as [Hl | Hl].
      * rewrite Hl, lookup_insert_eq in H. injection H as <-.
        exists e. split; [apply elem_of_app; right; apply list_elem_of_here | auto].
      * rewrite lookup_insert_ne in H by exact Hl. exact (Hold (Hsets H)).
    + rewrite lookup_insert_ne in H by exact Hk. exact (Hold H).
Qed.

Lemma listed_insert (ig : gmap string (gset string)) (k k' F F' : string) :
  listed (<[k' := {[F']} ∪ default ∅ (ig !! k')]> ig) k F
  = bool_decide (k = k' /\ F = F') || listed ig k F.
Proof.
  unfold listed. destruct (decide (k = k')) as [-> | Hk].
  - rewrite lookup_insert_eq.
    assert (Hmem : forall fs : gset string,
               F ∈ {[F']} ∪ fs <-> F = F' \/ F ∈ fs).
    { intros fs. rewrite elem_of_union, elem_of_singleton. tauto. }
    apply eq_true_iff_eq.
    destruct (ig !! k') as [fs |]; simpl;
      rewrite orb_true_iff, !bool_decide_eq_true, Hmem.
    + tauto.
    + pose proof (not_elem_of_empty (C := gset string) F). intuition congruence.
  - rewrite lookup_insert_ne by congruence.
    case_bool_decide as H; [tauto | reflexivity].
Qed.

(** The lookup in [statsIgnore] answers for the names that are not
    inherited, and only for them. *)
Lemma ignored_Ok (ig : gmap string (gset string)) (k F : string) (b : bool) :
  ignored ig k F = Ok b <-> JS.isInherited k = false /\ listed ig k F = b.
Proof.
  unfold ignored. destruct (JS.isInherited k).
  - split; [discriminate | intros [? _]; discriminate].
  - split; [intros [= <-]; now split | intros [_ ->]; reflexivity].
Qed.

Lemma covered_true {V} (s : ImportState V) (e : Store) :
  covered s e = true
  <-> ignored (statsIgnore s) (st_specie e) (st_formatID e) = Ok true.
Proof.
  unfold covered.
  destruct (ignored (statsIgnore s) (st_specie e) (st_formatID e)) as [b | m].
  - split; [now intros -> | now intros [= ->]].
  - split; discriminate.
Qed.

Lemma covered_insert {V} (s s' : ImportState V) (e : Store) (k F : string) :
  statsIgnore s'
  = <[k := {[F]} ∪ default ∅ (statsIgnore s !! k)]> (statsIgnore s) ->
  covered s e = true -> covered s' e = true.
Proof.
  rewrite !covered_true, !ignored_Ok. intros -> [Hi Hl].
  split; [exact Hi |]. rewrite listed_insert, Hl. apply orb_true_r.
Qed.

Section ImporterFacts.

Context (host : Host) (db : ReferenceDB) (engine : LegalityEngine).

Local Abbreviation State := (ImportState (TeamValidator engine)).

(** The adapter touches the validators only. *)
Lemma rejected_frame (format : option Format) (pset : PokemonSet)
  (type : Source) (s : State) :
  let s' := (rejected engine format pset type s).2 in
  calcSets s' = calcSets s /\ statsIgnore s' = statsIgnore s
  /\ formatIDs s' = formatIDs s /\ stored s' = stored s.
Proof.
  unfold rejected. destruct format as [f |]; [| now simpl].
  destruct (validatePSet engine f pset type (VALIDATORS s)) as [[ok p] v].
  now simpl.
Qed.

Lemma dexInv_frame (s s' : State) :
  calcSets s' = calcSets s -> statsIgnore s' = statsIgnore s ->
  stored s' = stored s -> dexInv s -> dexInv s'.
Proof.
  unfold dexInv, covered. intros -> -> ->. tauto.
Qed.

Lemma statsInv_frame ig (s s' : State) :
  calcSets s' = calcSets s -> statsIgnore s' = statsIgnore s ->
  stored s' = stored s -> statsInv ig s -> statsInv ig s'.
Proof.
  unfold statsInv, covered. intros -> -> ->. tauto.
Qed.

(** What [ignore] gives when it returns. *)
Lemma ignore_Ok (k F : string) (s s' : State) :
  ignore engine k F s = Ok s' <->
  JS.isInherited k = false
  /\ s' = mkState (calcSets s)
            (<[k := {[F]} ∪ default ∅ (statsIgnore s !! k)]> (statsIgnore s))
            (formatIDs s) (VALIDATORS s) (stored s).
Proof.
  unfold ignore. destruct (JS.isInherited k).
  - split; [discriminate | intros [? _]; discriminate].
  - split; [intros [= <-]; now split | intros [_ ->]; reflexivity].
Qed.

(** A curated store followed, or preceded, by the entry in [statsIgnore]. *)
Lemma dexInv_store (k F setName : string) (c : CalcSet) (s s' : State) :
  ignore engine k F (store engine src_dex k F setName c s) = Ok s' ->
  dexInv s -> dexInv s'.
Proof.
  rewrite ignore_Ok. intros [Hk ->] [Hr Hs]. unfold dexInv. simpl. split.
  - now rewrite replay_snoc, Hr.
  - intros e He. apply elem_of_app in He as [He | He].
    + destruct (Hs e He) as [H1 H2]. split; [exact H1 |].
      now apply (covered_insert s _ e k F).
    + apply list_elem_of_singleton in He. subst e. split; [reflexivity |].
      apply covered_true, ignored_Ok. simpl. split; [exact Hk |].
      rewrite listed_insert, bool_decide_eq_true_2 by tauto. reflexivity.
Qed.

Lemma dexInv_store' (k F setName : string) (c : CalcSet) (s s1 : State) :
  ignore engine k F s = Ok s1 ->
  dexInv s -> dexInv (store engine src_dex k F setName c s1).
Proof.
  rewrite ignore_Ok. intros [Hk ->] [Hr Hs]. unfold dexInv. simpl. split.
  - now rewrite replay_snoc, Hr.
  - intros e He. apply elem_of_app in He as [He | He].
    + destruct (Hs e He) as [H1 H2]. split; [exact H1 |].
      now apply (covered_insert s _ e k F).
    + apply list_elem_of_singleton in He. subst e. split; [reflexivity |].
      apply covered_true, ignored_Ok. simpl. split; [exact Hk |].
      rewrite listed_insert, bool_decide_eq_true_2 by tauto. reflexivity.
Qed.

Lemma dexCopy_inv (gen : Generation) (F setName : string) (c : CalcSet)
  (s : State) (forme : string) (s' : State) :
  dexInv s -> dexCopy db engine gen F setName c s forme = Ok s' -> dexInv s'.
Proof.
  intros Hs E. unfold dexCopy in E.
  destruct (ignore engine forme F s) as [s1 | m] eqn:E1; simpl in E;
    [| discriminate].
  destruct (JS.includes forme "-Mega"); injection E as <-;
    now apply (dexInv_store' forme F setName _ s s1).
Qed.

Lemma dexRecord_inv (gen : Generation) (F : string) (format : option Format)
  (specieName : string) (specie : Specie) (s : State)
  (entry : string * DexSet) (s' : State) :
  dexInv s ->
  dexRecord db engine gen F format specieName specie s entry = Ok s' ->
  dexInv s'.
Proof.
  intros Hs E. unfold dexRecord in E.
  pose proof (rejected_frame format (dexToPset db gen specie entry.2) src_dex s)
    as (H1 & H2 & _ & H4).
  destruct (rejected engine format _ src_dex s) as [[no pset] s1].
  simpl in H1, H2, H4.
  assert (Hs1 : dexInv s1) by exact (dexInv_frame s s1 H1 H2 H4 Hs).
  destruct no; [injection E as <-; exact Hs1 |].
  destruct (setNameOf _ entry.1) as [setName | m]; simpl in E; [| discriminate].
  destruct (ignore engine specieName F _) as [s2 | m] eqn:E2; simpl in E;
    [| discriminate].
  destruct (similarFormes db pset format specie _) as [copyTo | m];
    simpl in E; [| discriminate].
  revert E. apply forEach_inv; [intros s3 forme s3'; apply dexCopy_inv |].
  exact (dexInv_store _ _ _ _ _ _ E2 Hs1).
Qed.

Lemma dexPass_inv (gen : Generation) (dexSets : DexSets) (s s' : State) :
  dexInv s -> dexPass db engine gen dexSets s = Ok s' -> dexInv s'.
Proof.
  unfold dexPass. apply forEach_inv. clear s s'.
  intros s [specieName formats] s'. unfold dexSpecie. simpl.
  apply forEach_inv. clear s s'.
  intros s [formatID sets] s' Hs. unfold dexFormat. simpl.
  destruct (match resolveFormat db _ with Some f => negb (f_exists f) | None => false end).
  - now intros [= <-].
  - apply forEach_inv.
    + intros s1 x s1'. apply dexRecord_inv.
    + revert Hs. now apply dexInv_frame.
Qed.

(** A store of statistics, made where [statsIgnore] does not hold the
    format for the species. *)
Lemma statsInv_store ig (k F setName : string) (c : CalcSet) (s : State) :
  ignored (statsIgnore s) k F = Ok false ->
  statsInv ig s -> statsInv ig (store engine src_stats k F setName c s).
Proof.
  unfold statsInv, covered. intros Hk (Hig & Hr & Hs). simpl.
  split; [exact Hig |]. split.
  - now rewrite replay_snoc, Hr.
  - intros e He. apply elem_of_app in He as [He | He]; [now apply Hs |].
    apply list_elem_of_singleton in He. subst e. simpl. now rewrite Hk.
Qed.

Lemma statsCopy_inv ig (gen : Generation) (F setName : string) (c : CalcSet)
  (item : option Item) (s : State) (forme : string) (s' : State) :
  statsInv ig s ->
  statsCopy db engine gen F setName c item s forme = Ok s' ->
  statsInv ig s'.
Proof.
  intros Hs E. unfold statsCopy in E.
  destruct (ignored (statsIgnore s) forme F) as [[|] | m] eqn:Hig; simpl in E;
    [injection E as <-; exact Hs | | discriminate].
  destruct item as [it |]; [| discriminate].
  destruct (present (i_megaEvolves it) && present (i_megaStone it));
    injection E as <-; now apply statsInv_store.
Qed.

Lemma statsRecord_inv ig (gen : Generation) (F : string)
  (format : option Format) (threshold : Threshold) (s : State)
  (entry : string * UsageStatistics) (s' : State) :
  statsInv ig s ->
  statsRecord host db engine gen F format threshold s entry = Ok s' ->
  statsInv ig s'.
Proof.
  intros Hs E. unfold statsRecord in E.
  destruct (ignored (statsIgnore s) entry.1 F) as [[|] | m] eqn:Hig; simpl in E;
    [injection E as <-; exact Hs | | discriminate].
  destruct (belowThreshold _ threshold); [injection E as <-; exact Hs |].
  destruct (usageToPset host db gen F _ entry.2) as [pset0 | m];
    simpl in E; [| discriminate].
  pose proof (rejected_frame format pset0 src_stats s) as (H1 & H2 & _ & H4).
  destruct (rejected engine format pset0 src_stats s) as [[no pset] s1].
  simpl in H1, H2, H4.
  assert (Hs1 : statsInv ig s1) by exact (statsInv_frame ig s s1 H1 H2 H4 Hs).
  destruct no; [injection E as <-; exact Hs1 |].
  destruct (setNameOf _ "Showdown Usage") as [setName | m];
    simpl in E; [| discriminate].
  destruct (similarFormes db pset format _ _) as [copyTo | m];
    simpl in E; [| discriminate].
  revert E. apply forEach_inv.
  - intros s2 forme s2'. apply statsCopy_inv.
  - apply statsInv_store; [now rewrite H2 | exact Hs1].
Qed.

Lemma statsFormat_inv ig (gen : Generation) (s : State) (F : string)
  (s' : State) :
  statsInv ig s -> statsFormat host db engine gen s F = Ok s' -> statsInv ig s'.
Proof.
  intros Hs E. unfold statsFormat in E.
  destruct (match resolveFormat db F with Some f => negb (f_exists f) | None => false end);
    [injection E as <-; exact Hs |].
  destruct (fetchStats host F) as [page |]; [| injection E as <-; exact Hs].
  revert E. apply forEach_inv; [| exact Hs].
  intros s1 x s1'. apply statsRecord_inv.
Qed.

Lemma importGenState_inv (gen : Generation) (dexSets : DexSets)
  (v : Validators engine) (s : State) :
  importGenState host db engine gen dexSets v = Ok s ->
  exists ig, statsInv ig s.
Proof.
  unfold importGenState. intros E.
  destruct (dexPass db engine gen dexSets (initial engine v)) as [s1 | m] eqn:E1;
    simpl in E; [| discriminate].
  assert (H1 : dexInv s1).
  { apply (dexPass_inv gen dexSets (initial engine v) s1); [| exact E1].
    split; [reflexivity |]. intros e He. now apply elem_of_nil in He. }
  exists (statsIgnore s1). revert E. unfold statsPass.
  apply forEach_inv; [intros s2 F s2'; apply statsFormat_inv |].
  destruct H1 as [Hr Hs]. split; [reflexivity |]. split; [exact Hr |].
  intros e He. destruct (Hs e He) as [Hsrc Hcov].
  rewrite Hcov, Hsrc. reflexivity.
Qed.

End ImporterFacts.

(** C1: in a run of the importer that returns, every assignment to the
    output is a store, and once a curated store was made for a species in a
    format, directly or as the copy to a similar forme, no store of usage
    statistics is made for that species in that format: the statistics pass
    skips the species, as an entry of the page and as a target of a copy,
    whatever its weighted usage.  So every set the output holds for that
    species comes from a store that is not one of the statistics of that
    format. *)
Theorem C1_coverage_suppression (host : Host) (db : ReferenceDB)
  (engine : LegalityEngine) (gen : Generation) (dexSets : DexSets)
  (v : Validators engine) (s : State engine) :
  importGenState host db engine gen dexSets v = Ok s ->
  importGen host db engine gen dexSets v = Ok (calcSets s)
  /\ calcSets s = replay (stored s)
  /\ (forall e1 e2,
        e1 ∈ stored s -> e2 ∈ stored s -> st_source e1 = src_dex ->
        st_specie e2 = st_specie e1 -> st_formatID e2 = st_formatID e1 ->
        st_source e2 = src_dex)
  /\ (forall e1 label c,
        e1 ∈ stored s -> st_source e1 = src_dex ->
        calcSets s !! st_specie e1 ≫= (fun m => m !! label) = Some c ->
        exists e,
          e ∈ stored s /\ st_specie e = st_specie e1
          /\ st_setName e = label /\ st_calcSet e = c
          /\ (st_formatID e = st_formatID e1 -> st_source e = src_dex))
  /\ (forall e1 format threshold uset setName c item (s' : State engine),
        e1 ∈ stored s -> st_source e1 = src_dex ->
        statsIgnore s' = statsIgnore s ->
        statsRecord host db engine gen (st_formatID e1) format threshold s'
          (st_specie e1, uset) = Ok s'
        /\ statsCopy db engine gen (st_formatID e1) setName c item s'
             (st_specie e1) = Ok s').
Proof.
  intros E.
  destruct (importGenState_inv host db engine gen dexSets v s E)
    as (ig & Hig & Hr & Hs).
  assert (Hsame : forall e1 e2,
             e1 ∈ stored s -> e2 ∈ stored s -> st_source e1 = src_dex ->
             st_specie e2 = st_specie e1 -> st_formatID e2 = st_formatID e1 ->
             st_source e2 = src_dex).
  { intros e1 e2 H1 H2 Hsrc Hsp Hf.
    pose proof (Hs e1 H1) as C1. pose proof (Hs e2 H2) as C2.
    unfold covered in C1, C2. rewrite Hsp, Hf, C1 in C2.
    rewrite Hsrc in C2. symmetry in C2.
    now apply bool_decide_eq_true in C2. }
  split; [| split; [exact Hr | split; [exact Hsame | split]]].
  - unfold importGen. now rewrite E.
  - intros e1 label c H1 Hsrc Hl. rewrite Hr in Hl.
    destruct (replay_lookup _ _ _ _ Hl) as (e & Hin & Hsp & Hn & Hc).
    exists e. repeat split; try assumption.
    intros Hf. now apply (Hsame e1 e).
  - intros e1 format threshold uset setName c item s' H1 Hsrc Hsame'.
    pose proof (Hs e1 H1) as C1.
    rewrite Hsrc in C1. simpl in C1. apply covered_true in C1.
    unfold statsRecord, statsCopy. simpl. now rewrite Hsame', C1.
Qed.

(** A run on the sample: the statistics of OU hold Aegislash and
    Aegislash-Blade, which the curated set covers, and neither is stored. *)
Lemma C1_coverage_suppression_witness :
  exists s,
    importGenState Sample.host Sample.db Sample.permissive Sample.gen6
      Sample.dexSets ∅ = Ok s
    /\ map (fun e => (st_source e, st_specie e, st_formatID e)) (stored s)
       = [(src_dex, "Aegislash", "gen6ou");
          (src_dex, "Aegislash-Blade", "gen6ou");
          (src_dex, "Aegislash-Shield", "gen6ou");
          (src_dex, "Aegislash-Both", "gen6ou");
          (src_stats, "Garchomp", "gen6ou");
          (src_stats, "Keldeo", "gen6ou");
          (src_stats, "Keldeo-Resolute", "gen6ou")]
    /\ importGen Sample.host Sample.db Sample.permissive Sample.gen6
         Sample.dexSets ∅ = Ok (calcSets s).
Proof.
  assert (E : exists s,
             importGenState Sample.host Sample.db Sample.permissive Sample.gen6
               Sample.dexSets ∅ = Ok s
             /\ map (fun e => (st_source e, st_specie e, st_formatID e)) (stored s)
                = [(src_dex, "Aegislash", "gen6ou");
                   (src_dex, "Aegislash-Blade", "gen6ou");
                   (src_dex, "Aegislash-Shield", "gen6ou");
                   (src_dex, "Aegislash-Both", "gen6ou");
                   (src_stats, "Garchomp", "gen6ou");
                   (src_stats, "Keldeo", "gen6ou");
                   (src_stats, "Keldeo-Resolute", "gen6ou")]).
  { eexists. split; vm_compute; reflexivity. }
  destruct E as (s & E & Hst). exists s. split; [exact E |]. split; [exact Hst |].
  exact (proj1 (C1_coverage_suppression Sample.host Sample.db Sample.permissive
                  Sample.gen6 Sample.dexSets ∅ s E)).
Defined.









(* ===================================================================== *)
(** ** More on the weighted selector *)
(* ===================================================================== *)

(** Inserting an entry leaves the entries of any one weight in their order,
    the new entry first. *)
Lemma insertDesc_ties (q : Q) (a : string * Q) (l : list (string * Q)) :
  List.filter (fun e => Qeq_bool e.2 q) (insertDesc a l)
  = List.filter (fun e => Qeq_bool e.2 q) (a :: l).
Proof.
  induction l as [|b l IH]; [reflexivity |].
  cbn [insertDesc]. destruct (Qle_bool b.2 a.2) eqn:E; [reflexivity |].
  cbn [List.filter] in *. rewrite IH.
  destruct (Qeq_bool a.2 q) eqn:Ea; destruct (Qeq_bool b.2 q) eqn:Eb;
    try reflexivity.
  exfalso. apply Qeq_bool_iff in Ea, Eb.
  assert (Hle : (b.2 <= a.2)%Q) by (rewrite Ea, Eb; apply Qle_refl).
  apply Qle_bool_iff in Hle. congruence.
Qed.

(** The sort of the general branch is stable: the entries that hold one
    weight come out in the order of the enumeration, so among the keys the
    branch returns, ties are in enumeration order. *)
Theorem top_sort_stable (w : Weights) (n : Z) (q : Q) :
  (2 <= n)%Z ->
  top w n = TopKeys (map fst (take (Z.to_nat n) (sortDesc w)))
  /\ List.filter (fun e => Qeq_bool e.2 q) (sortDesc w)
     = List.filter (fun e => Qeq_bool e.2 q) w.
Proof.
  intros Hn. split.
  - unfold top, sliceTo.
    destruct (Z.eqb_spec n 0); [lia |]. destruct (Z.eqb_spec n 1); [lia |].
    destruct (Z.ltb_spec n 0); [lia | reflexivity].
  - induction w as [|a w IH]; [reflexivity |].
    cbn [sortDesc]. rewrite insertDesc_ties. cbn [List.filter].
    now rewrite IH.
Qed.

(** Four moves of which three tie. *)
Lemma top_sort_stable_witness :
  top [("a", 1%Q); ("b", 2%Q); ("c", 1%Q); ("d", 1%Q)] 3
  = TopKeys ["b"; "a"; "c"].
Proof.
  destruct (top_sort_stable [("a", 1%Q); ("b", 2%Q); ("c", 1%Q); ("d", 1%Q)]
              3 1%Q) as [H _]; [lia |].
  exact H.
Defined.

(** A count of two or more on a small map. *)
Lemma top_many_witness :
  exists es : list (string * Q),
    top [("a", 1%Q); ("b", 2%Q)] 4 = TopKeys (map fst es)
    /\ length (map fst es) = 2%nat.
Proof.
  destruct (top_many [("a", 1%Q); ("b", 2%Q)] 4) as (es & H1 & _ & H2 & _);
    [lia |].
  exists es. split; [exact H1 | exact H2].
Defined.

(** The first entry of the sorted entries is the first of greatest weight. *)
Lemma sortDesc_head (w : Weights) :
  w <> [] ->
  exists e pre post,
    head (sortDesc w) = Some e
    /\ w = (pre ++ e :: post)%list
    /\ (forall x, x ∈ pre -> (x.2 < e.2)%Q)
    /\ (forall x, x ∈ post -> (x.2 <= e.2)%Q).
Proof.
  induction w as [|a w IH]; [congruence |]. intros _.
  destruct w as [|b w].
  - exists a, [], []. repeat split; intros x Hx; now apply elem_of_nil in Hx.
  - destruct IH as (e & pre & post & Hh & Hw & Hpre & Hpost); [discriminate |].
    cbn [sortDesc] in *. destruct (insertDesc b (sortDesc w)) as [|e0 s] eqn:Es;
      [discriminate |].
    injection Hh as ->. cbn [insertDesc].
    destruct (Qle_bool e.2 a.2) eqn:E.
    + apply Qle_bool_iff in E. exists a, [], (b :: w). repeat split.
      * intros x Hx. now apply elem_of_nil in Hx.
      * intros x Hx. rewrite Hw in Hx. apply elem_of_app in Hx as [Hx | Hx].
        -- apply Qlt_le_weak. apply Qlt_le_trans with e.2; [now apply Hpre | exact E].
        -- apply elem_of_cons in Hx as [-> | Hx]; [exact E |].
           apply Qle_trans with e.2; [now apply Hpost | exact E].
    + assert (Hlt : (a.2 < e.2)%Q).
      { apply Qnot_le_lt. intros Hle. apply Qle_bool_iff in Hle. congruence. }
      exists e, (a :: pre), post. repeat split.
      * now rewrite Hw.
      * intros x Hx. apply elem_of_cons in Hx as [-> | Hx]; [exact Hlt |].
        now apply Hpre.
      * exact Hpost.
Qed.

(** There is one first entry of greatest weight. *)
Lemma first_max_unique (pre : list (string * Q)) :
  forall pre' e e' post post',
    (pre ++ e :: post)%list = (pre' ++ e' :: post')%list ->
    (forall x, x ∈ pre -> (x.2 < e.2)%Q) ->
    (forall x, x ∈ post -> (x.2 <= e.2)%Q) ->
    (forall x, x ∈ pre' -> (x.2 < e'.2)%Q) ->
    (forall x, x ∈ post' -> (x.2 <= e'.2)%Q) ->
    e = e'.
Proof.
  induction pre as [|x pre IH]; intros pre' e e' post post' Hw H1 H2 H3 H4.
  - destruct pre' as [|x' pre']; simpl in Hw.
    + now injection Hw.
    + injection Hw as He Hp. subst e post. exfalso.
      assert (Ha : (x'.2 < e'.2)%Q) by (apply H3; apply list_elem_of_here).
      assert (Hb : (e'.2 <= x'.2)%Q).
      { apply H2. apply elem_of_app. right. apply list_elem_of_here. }
      now apply (Qlt_not_le _ _ Ha).
  - destruct pre' as [|x' pre']; simpl in Hw.
    + injection Hw as He Hp. subst x post'. exfalso.
      assert (Ha : (e'.2 < e.2)%Q) by (apply H1; apply list_elem_of_here).
      assert (Hb : (e.2 <= e'.2)%Q).
      { apply H4. apply elem_of_app. right. apply list_elem_of_here. }
      now apply (Qlt_not_le _ _ Ha).
    + injection Hw as He Hp. subst x'.
      apply (IH pre' e e' post post' Hp); auto.
      * intros y Hy. apply H1. now apply list_elem_of_further.
      * intros y Hy. apply H3. now apply list_elem_of_further.
Qed.

(** For a map with distinct keys, none of them empty, the shortcut of the
    [n === 1] branch gives the first key of greatest weight, which is the
    key the general branch puts first. *)
Theorem top_shortcut_agrees (w : Weights) (n : Z) :
  wfObj w ->
  (forall e, e ∈ w -> e.1 <> "") ->
  w <> [] ->
  (2 <= n)%Z ->
  exists k ks,
    top w 1 = TopKey k /\ firstMax w k /\ top w n = TopKeys (k :: ks).
Proof.
  intros Hwf Hkeys Hne Hn.
  destruct (top_one_first_max w Hwf Hkeys Hne) as (k & Hk & pre & q & post & Hw & Hpre & Hpost).
  destruct (sortDesc_head w Hne) as (e & pre' & post' & Hh & Hw' & Hpre' & Hpost').
  assert (He : (k, q) = e).
  { apply (first_max_unique pre pre' (k, q) e post post'); auto.
    now rewrite <- Hw, <- Hw'. }
  subst e. exists k.
  destruct (sortDesc w) as [|e0 s] eqn:Es; [discriminate |].
  injection Hh as ->.
  exists (map fst (take (Z.to_nat n - 1) s)). split; [exact Hk |].
  split; [now exists pre, q, post |].
  unfold top, sliceTo.
  destruct (Z.eqb_spec n 0); [lia |]. destruct (Z.eqb_spec n 1); [lia |].
  destruct (Z.ltb_spec n 0); [lia |]. rewrite Es.
  destruct (Z.to_nat n) as [|m] eqn:En; [lia |].
  simpl. now rewrite Nat.sub_0_r.
Qed.

(** Three abilities, the second and third tying for the greatest weight. *)
Lemma top_shortcut_agrees_witness :
  exists k ks,
    top [("Levitate", 1%Q); ("Pressure", 3%Q); ("Unnerve", 3%Q)] 1 = TopKey k
    /\ firstMax [("Levitate", 1%Q); ("Pressure", 3%Q); ("Unnerve", 3%Q)] k
    /\ top [("Levitate", 1%Q); ("Pressure", 3%Q); ("Unnerve", 3%Q)] 2
       = TopKeys (k :: ks).
Proof.
  apply (top_shortcut_agrees [("Levitate", 1%Q); ("Pressure", 3%Q); ("Unnerve", 3%Q)] 2).
  - unfold wfObj. simpl. compute_done.
  - intros e He. repeat (apply elem_of_cons in He as [-> | He]; [discriminate |]).
    now apply elem_of_nil in He.
  - discriminate.
  - lia.
Defined.

Lemma topMax_key (w : Weights) (rest : list (string * Q)) :
  forall max k,
    fold_left (topStep w) rest max = Some k ->
    max = Some k \/ k ∈ map fst rest.
Proof.
  induction rest as [|e rest IH]; intros max k H; simpl in H; [now left |].
  destruct (IH _ _ H) as [Hs | Hin].
  - unfold topStep in Hs.
    destruct (unset max || jsLt (max ≫= weightOf w) (weightOf w e.1)).
    + injection Hs as <-. right. simpl. apply list_elem_of_here.
    + now left.
  - right. simpl. now apply list_elem_of_further.
Qed.

Lemma topMax_some (w : Weights) (rest : list (string * Q)) :
  forall max, (rest <> [] \/ max <> None) ->
    fold_left (topStep w) rest max <> None.
Proof.
  induction rest as [|e rest IH]; intros max H; simpl.
  - destruct H; congruence.
  - apply IH. right. unfold topStep.
    destruct max as [m |]; simpl; [| discriminate].
    destruct (negb (JS.truthy m) || jsLt (weightOf w m) (weightOf w e.1));
      discriminate.
Qed.

(** With a count of 1 the selector gives [undefined] on the empty map only,
    and what it gives otherwise is a key of the map, also when keys repeat
    or are empty. *)
Theorem top_one_is_a_key (w : Weights) :
  (top w 1 = TopUndefined <-> w = [])
  /\ (forall k, top w 1 = TopKey k -> k ∈ map fst w)
  /\ (forall ks, top w 1 <> TopKeys ks).
Proof.
  unfold top, topMax. simpl. split; [| split].
  - split.
    + intros H. destruct w as [|e w]; [reflexivity |].
      pose proof (topMax_some (e :: w) (e :: w) None) as Hs.
      destruct (fold_left (topStep (e :: w)) (e :: w) None); [discriminate |].
      exfalso. apply Hs; [left; discriminate | reflexivity].
    + now intros ->.
  - intros k H.
    destruct (fold_left (topStep w) w None) as [k' |] eqn:E; [| discriminate].
    injection H as ->. destruct (topMax_key w w None k E) as [? | ?];
      [discriminate | assumption].
  - intros ks. now destruct (fold_left (topStep w) w None).
Qed.

(* ===================================================================== *)
(** ** More on the normalizer, the HP and the threshold *)
(* ===================================================================== *)

Lemma objSet_fresh {K V} `{EqDecision K} (o : list (K * V)) (k : K) (v : V) :
  k ∉ map fst o -> objSet o k v = (o ++ [(k, v)])%list.
Proof.
  induction o as [|e o IH]; intros Hk; [reflexivity |]. simpl in *.
  apply not_elem_of_cons in Hk as [Hne Hk].
  rewrite bool_decide_eq_false_2 by congruence. now rewrite IH.
Qed.

Lemma condense_order (ignoreVal : Z) (stats : PartialStats) :
  forall acc : PartialCalcStats,
    wfObj stats ->
    (forall k, k ∈ map fst stats -> calcKey k ∉ map fst acc) ->
    fold_left (condense ignoreVal) stats acc
    = (acc ++ map (fun e => (calcKey e.1, e.2))
                 (List.filter (fun e => negb (e.2 =? ignoreVal)%Z) stats))%list.
Proof.
  induction stats as [|[k v] stats IH]; intros acc Hwf Hacc.
  - simpl. now rewrite app_nil_r.
  - unfold wfObj in Hwf. simpl in Hwf. apply NoDup_cons in Hwf as [Hk Hwf].
    cbn [fold_left List.filter]. unfold condense at 2. simpl.
    destruct (v =? ignoreVal)%Z; simpl.
    + apply IH; [exact Hwf |]. intros k' Hk'. apply Hacc.
      simpl. now apply list_elem_of_further.
    + rewrite objSet_fresh by (apply Hacc; simpl; apply list_elem_of_here).
      rewrite IH; [now rewrite <- app_assoc | exact Hwf |].
      intros k' Hk'. rewrite map_app. simpl. intros Hin.
      apply elem_of_app in Hin as [Hin | Hin].
      * revert Hin. apply Hacc. simpl. now apply list_elem_of_further.
      * apply list_elem_of_singleton, calcKey_inj in Hin. congruence.
Qed.

(** The condensed table is the entries of the table that differ from the
    ignore value, renamed, in the order the table enumerates them. *)
Theorem toCalcStatsTable_order (stats : PartialStats) (ignoreVal : Z) :
  wfObj stats ->
  toCalcStatsTable stats ignoreVal
  = map (fun e => (calcKey e.1, e.2))
        (List.filter (fun e => negb (e.2 =? ignoreVal)%Z) stats).
Proof.
  intros Hwf. unfold toCalcStatsTable.
  rewrite (condense_order ignoreVal stats [] Hwf); [reflexivity |].
  intros k _. apply not_elem_of_nil.
Qed.

(** A spread whose keys are not in the order of the stat names. *)
Lemma toCalcStatsTable_order_witness :
  toCalcStatsTable [(spe, 252); (hp, 0); (atk, 252); (spd, 4)]%Z 0
  = [(c_sp, 252); (c_at, 252); (c_sd, 4)]%Z.
Proof.
  apply (toCalcStatsTable_order [(spe, 252); (hp, 0); (atk, 252); (spd, 4)]%Z 0).
  unfold wfObj. simpl. compute_done.
Defined.

Lemma rem2_range (a : Z) : (0 <= a)%Z -> (0 <= Z.rem a 2 < 2)%Z.
Proof. intros H. apply Z.rem_bound_pos; lia. Qed.

(** The derived HP reads atk, def, spe and spa only; when none of them is
    negative it is an even number from 0 to 30. *)
Theorem expectedHP_range (ivs ivs' : PartialStats) :
  ((forall k, k ∈ [atk; def; spe; spa] -> objGet ivs k = objGet ivs' k) ->
   expectedHP ivs = expectedHP ivs')
  /\ ((forall k, k ∈ [atk; def; spe; spa] -> (0 <= default 31 (objGet ivs k))%Z) ->
      (0 <= expectedHP ivs <= 30)%Z /\ Z.even (expectedHP ivs) = true).
Proof.
  split.
  - intros H. unfold expectedHP, fillStats.
    cbn [s_atk s_def s_spe s_spa mbind option_bind].
    rewrite (H atk), (H def), (H spe), (H spa); [reflexivity | | | |];
      repeat (first [apply list_elem_of_here | apply list_elem_of_further]).
  - intros H. unfold expectedHP, fillStats.
    cbn [s_atk s_def s_spe s_spa mbind option_bind].
    assert (Hd : forall k, k ∈ [atk; def; spe; spa] ->
                 (0 <= Z.rem (default 31 (objGet ivs k) / 2) 2 < 2)%Z).
    { intros k Hk. apply rem2_range, Z.div_pos; [now apply H | lia]. }
    pose proof (Hd atk) as Ha. pose proof (Hd def) as Hb.
    pose proof (Hd spe) as Hc. pose proof (Hd spa) as He.
    split.
    + lapply Ha; [| repeat (first [apply list_elem_of_here | apply list_elem_of_further])].
      lapply Hb; [| repeat (first [apply list_elem_of_here | apply list_elem_of_further])].
      lapply Hc; [| repeat (first [apply list_elem_of_here | apply list_elem_of_further])].
      lapply He; [| repeat (first [apply list_elem_of_here | apply list_elem_of_further])].
      lia.
    + rewrite Z.even_mul. reflexivity.
Qed.

(** A table that gives two of the four stats. *)
Lemma expectedHP_range_witness :
  (0 <= expectedHP [(atk, 7); (hp, 3)] <= 30)%Z
  /\ Z.even (expectedHP [(atk, 7); (hp, 3)]%Z) = true.
Proof.
  destruct (expectedHP_range [(atk, 7); (hp, 3)]%Z []) as [_ H].
  apply H. intros k Hk. destruct k; vm_compute; discriminate.
Defined.

(** More battles never raise the threshold: a weight that is below the
    threshold of a format at some count of battles is below it at every
    smaller count. *)
Theorem getUsageThreshold_antitone (formatID : string) (count count' : Z)
  (weighted : Q) :
  (count <= count')%Z ->
  belowThreshold weighted (getUsageThreshold formatID count') = true ->
  belowThreshold weighted (getUsageThreshold formatID count) = true.
Proof.
  intros Hle. unfold getUsageThreshold.
  destruct (Z.ltb_spec count 100); [reflexivity |].
  destruct (Z.ltb_spec count' 100); [lia |].
  assert (H13 : (0.01 < 0.03)%Q) by reflexivity.
  assert (H35 : (0.03 < 0.05)%Q) by reflexivity.
  assert (H15 : (0.01 < 0.05)%Q) by reflexivity.
  destruct (Z.ltb_spec count 400) as [H4 | H4];
    destruct (Z.ltb_spec count' 400) as [H4' | H4'].
  - trivial.
  - destruct (JS.testAlternation lowQuality formatID); simpl;
      rewrite !Qltb_lt; intros Hw; eapply Qlt_trans; eauto.
  - lia.
  - trivial.
Qed.

(** From 1000 battles down to 150. *)
Lemma getUsageThreshold_antitone_witness :
  belowThreshold 0.02 (getUsageThreshold "gen9ubers" 150) = true.
Proof.
  apply (getUsageThreshold_antitone "gen9ubers" 150 1000 0.02);
    [lia | reflexivity].
Defined.

(* ===================================================================== *)
(** ** The reconciler and the builders *)
(* ===================================================================== *)

Lemma getStat_setStat (t : StatsTable) (k k' : StatID) (v : Z) :
  getStat (setStat t k v) k' = if bool_decide (k = k') then v else getStat t k'.
Proof. destruct k, k'; reflexivity. Qed.

Lemma stats_ext (t t' : StatsTable) :
  (forall k, getStat t k = getStat t' k) -> t = t'.
Proof.
  intros H. destruct t, t'.
  pose proof (H hp). pose proof (H atk). pose proof (H def).
  pose proof (H spa). pose proof (H spd). pose proof (H spe).
  simpl in *. congruence.
Qed.

Lemma objGet_app {K V} `{EqDecision K} (o o' : list (K * V)) (k : K) :
  objGet (o ++ o') k
  = match objGet o k with Some v => Some v | None => objGet o' k end.
Proof.
  induction o as [|e o IH]; [reflexivity |]. simpl.
  rewrite !objGet_cons, IH. now destruct (bool_decide (e.1 = k)).
Qed.

(** [Object.assign] leaves a stat the source lacks and gives the others the
    last value the source has for them. *)
Lemma getStat_assign (d : PartialStats) :
  forall (t : StatsTable) (k : StatID),
    getStat (assign t d) k = default (getStat t k) (objGet (rev d) k).
Proof.
  induction d as [|e d IH]; intros t k; [reflexivity |].
  unfold assign in *. cbn [fold_left rev]. rewrite IH, objGet_app.
  destruct (objGet (rev d) k); [reflexivity |].
  rewrite objGet_cons, getStat_setStat. simpl.
  now destruct (bool_decide (e.1 = k)).
Qed.

Lemma assign_idem (t : StatsTable) (d : PartialStats) :
  assign (assign t d) d = assign t d.
Proof.
  apply stats_ext. intros k. rewrite !getStat_assign.
  now destruct (objGet (rev d) k).
Qed.

Lemma expectedHP_entries (t : StatsTable) :
  expectedHP (entries t)
  = (2 * (Z.rem (s_atk t / 2) 2 * 8 + Z.rem (s_def t / 2) 2 * 4
          + Z.rem (s_spe t / 2) 2 * 2 + Z.rem (s_spa t / 2) 2))%Z.
Proof. reflexivity. Qed.

(** The generation-2 step, taken twice, is the step taken once. *)
Lemma gen2_step_idem (t : StatsTable) (d : PartialStats) :
  let t2 := setStat (assign t d) hp (expectedHP (entries (assign t d))) in
  setStat (assign t2 d) hp (expectedHP (entries (assign t2 d))) = t2.
Proof.
  intros t2.
  assert (Hk : forall k, k <> hp -> getStat (assign t2 d) k = getStat (assign t d) k).
  { intros k Hk. unfold t2. rewrite !getStat_assign, getStat_setStat.
    rewrite bool_decide_eq_false_2 by congruence.
    rewrite getStat_assign. now destruct (objGet (rev d) k). }
  assert (Hx : expectedHP (entries (assign t2 d))
               = expectedHP (entries (assign t d))).
  { rewrite !expectedHP_entries.
    change (s_atk ?u) with (getStat u atk). change (s_def ?u) with (getStat u def).
    change (s_spe ?u) with (getStat u spe). change (s_spa ?u) with (getStat u spa).
    rewrite !Hk by discriminate. reflexivity. }
  apply stats_ext. intros k. rewrite Hx. unfold t2.
  rewrite !getStat_setStat.
  destruct (bool_decide_reflect (hp = k)) as [<- | Hne]; [reflexivity |].
  apply Hk. congruence.
Qed.

(** What the reconciler leaves alone: everything but the hidden-encoding
    table and the override tag. *)
Lemma reconcile_frame (db : ReferenceDB) (gen : Generation) (pset : PokemonSet) :
  let r := reconcile db gen pset in
  p_name r = p_name pset /\ p_species r = p_species pset
  /\ p_item r = p_item pset /\ p_ability r = p_ability pset
  /\ p_moves r = p_moves pset /\ p_nature r = p_nature pset
  /\ p_gender r = p_gender pset /\ p_evs r = p_evs pset
  /\ p_level r = p_level pset /\ p_teraType r = p_teraType pset
  /\ p_shiny r = p_shiny pset.
Proof.
  unfold reconcile.
  destruct (List.find _ (p_moves pset)) as [move |]; [| now simpl].
  destruct (JS.truthy _ && negb _); [| now simpl].
  destruct ((7 <=? num gen)%Z && (p_level pset =? 100)%Z); [now simpl |].
  destruct (num gen =? 2)%Z; now simpl.
Qed.

(** The reconciler on a set whose Hidden Power names a type. *)
Lemma reconcile_typed (db : ReferenceDB) (gen : Generation) (pset : PokemonSet)
  (move : string) :
  List.find (fun m => JS.startsWith m "Hidden Power") (p_moves pset) = Some move ->
  JS.truthy (JS.slice move 13) = true ->
  reconcile db gen pset
  = if negb (String.eqb (getHiddenPower_type db (num gen) (p_ivs pset))
               (JS.slice move 13))
    then
      if (7 <=? num gen)%Z && (p_level pset =? 100)%Z
      then setHpType pset (JS.slice move 13)
      else if (num gen =? 2)%Z then
        let ivs := assign (p_ivs pset)
                     (map (fun e => (e.1, (e.2 * 2)%Z))
                        (types_HPdvs db (num gen) (JS.slice move 13))) in
        setIvs pset (setStat ivs hp (expectedHP (entries ivs)))
      else setIvs pset
             (assign (p_ivs pset) (types_HPivs db (num gen) (JS.slice move 13)))
    else pset.
Proof. intros Ef Ht. unfold reconcile. now rewrite Ef, Ht. Qed.

(** Reconciling a reconciled set changes nothing, whatever the database
    answers: the override tag is set to the same type again, and writing the
    same template over the table again gives the same table and, in
    generation 2, the same derived HP. *)
Theorem reconcile_idempotent (db : ReferenceDB) (gen : Generation)
  (pset : PokemonSet) :
  reconcile db gen (reconcile db gen pset) = reconcile db gen pset.
Proof.
  destruct (List.find (fun m => JS.startsWith m "Hidden Power") (p_moves pset))
    as [move |] eqn:Ef.
  2: { unfold reconcile. rewrite Ef. now rewrite Ef. }
  destruct (JS.truthy (JS.slice move 13)) eqn:Ht.
  2: { unfold reconcile. rewrite Ef, Ht. simpl. now rewrite Ef, Ht. }
  rewrite (reconcile_typed db gen pset move Ef Ht).
  destruct (negb (String.eqb (getHiddenPower_type db (num gen) (p_ivs pset))
                    (JS.slice move 13))) eqn:Ec.
  2: { rewrite (reconcile_typed db gen pset move Ef Ht). now rewrite Ec. }
  destruct ((7 <=? num gen)%Z && (p_level pset =? 100)%Z) eqn:Ea.
  - rewrite (reconcile_typed db gen (setHpType pset (JS.slice move 13)) move Ef Ht).
    cbn [p_ivs p_level setHpType]. now rewrite Ec, Ea.
  - destruct (num gen =? 2)%Z eqn:E2.
    + cbv zeta.
      set (d := map (fun e => (e.1, (e.2 * 2)%Z))
                    (types_HPdvs db (num gen) (JS.slice move 13))).
      set (t2 := setStat (assign (p_ivs pset) d) hp
                   (expectedHP (entries (assign (p_ivs pset) d)))).
      rewrite (reconcile_typed db gen (setIvs pset t2) move Ef Ht).
      cbn [p_ivs p_level setIvs]. rewrite Ea, E2.
      destruct (negb (String.eqb (getHiddenPower_type db (num gen) t2)
                        (JS.slice move 13))); [| reflexivity].
      cbv zeta. fold d. f_equal. apply gen2_step_idem.
    + set (d := types_HPivs db (num gen) (JS.slice move 13)).
      rewrite (reconcile_typed db gen (setIvs pset (assign (p_ivs pset) d)) move Ef Ht).
      cbn [p_ivs p_level setIvs]. rewrite Ea, E2.
      destruct (negb (String.eqb
                        (getHiddenPower_type db (num gen) (assign (p_ivs pset) d))
                        (JS.slice move 13))); [| reflexivity].
      fold d. f_equal. apply assign_idem.
Qed.

(** From generation 7 on, a set at level 100 keeps its hidden-encoding
    table: a Hidden Power type the table does not give is written to the
    override tag instead, which the calculator's set does not carry. *)
Theorem reconcile_keeps_ivs (db : ReferenceDB) (gen : Generation)
  (pset : PokemonSet) :
  (7 <= num gen)%Z ->
  p_level pset = 100%Z ->
  p_ivs (reconcile db gen pset) = p_ivs pset
  /\ psetToCalcSet (num gen) (reconcile db gen pset)
     = psetToCalcSet (num gen) pset.
Proof.
  intros Hg Hl. unfold reconcile.
  destruct (List.find _ (p_moves pset)) as [move |]; [| now split].
  destruct (JS.truthy _ && negb _); [| now split].
  rewrite Hl. destruct (Z.leb_spec 7 (num gen)); [| lia]. now split.
Qed.

(** A level-100 set of generation 9 with Hidden Power Fire. *)
Lemma reconcile_keeps_ivs_witness :
  p_ivs (reconcile Sample.db (mkGen 9)
           (setMoves (Sample.plain "Volcarona" "Flame Body") ["Hidden Power Fire"]))
  = fillStats None 31.
Proof.
  apply (reconcile_keeps_ivs Sample.db (mkGen 9)
           (setMoves (Sample.plain "Volcarona" "Flame Body") ["Hidden Power Fire"]));
    [simpl; lia | reflexivity].
Defined.

Lemma toCalcStatsTable_default (x : Z) :
  toCalcStatsTable (entries (fillStats None x)) x = [].
Proof.
  unfold toCalcStatsTable, entries, fillStats, statIDs, condense. simpl.
  now rewrite Z.eqb_refl.
Qed.

(** The builder of curated sets and the normalizer agree on the defaults of
    every generation: the calculator's set holds an effort value exactly for
    the stats the curated set gives with a value other than the default of
    the generation (252 before generation 3, 0 from it on), so none when the
    curated set gives none; and without a Hidden Power move its
    hidden-encoding table is empty, whatever the curated set says. *)
Theorem dexToPset_calc_stats (db : ReferenceDB) (gen : Generation)
  (specie : Specie) (dset : DexSet) :
  let c := psetToCalcSet (num gen) (dexToPset db gen specie dset) in
  let dflt := (if (num gen <? 3)%Z then 252 else 0)%Z in
  (forall k v,
      objGet (c_evs c) (calcKey k) = Some v
      <-> (first (d_evs dset) ≫= fun s => objGet s k) = Some v /\ v <> dflt)
  /\ (first (d_evs dset) = None -> c_evs c = [])
  /\ (List.find (fun m => JS.startsWith m "Hidden Power")
        (map firstMove (d_moves dset)) = None ->
      c_ivs c = [])
  /\ c_item c = JS.nullish (first (d_item dset)) ""
  /\ c_moves c = map firstMove (d_moves dset).
Proof.
  intros c dflt. unfold c, dexToPset.
  match goal with |- context [reconcile db gen ?p] => set (p0 := p) end.
  pose proof (reconcile_frame db gen p0)
    as (_ & _ & Hi & _ & Hm & _ & _ & He & _).
  assert (Hign : (if (2 <? num gen)%Z then 0 else 252)%Z = dflt).
  { unfold dflt. destruct (Z.ltb_spec 2 (num gen)); destruct (Z.ltb_spec (num gen) 3);
      (reflexivity || lia). }
  unfold psetToCalcSet. cbn [c_evs c_ivs c_item c_moves].
  rewrite He, Hi, Hm, Hign. subst p0. cbn [p_evs p_item p_moves].
  fold dflt. split; [| split; [| split; [| split; reflexivity]]].
  - intros k v. unfold toCalcStatsTable.
    rewrite (condense_fold dflt _ [] k (entries_wf _)), entries_get.
    assert (Hg : getStat (fillStats (first (d_evs dset)) dflt) k
                 = default dflt (first (d_evs dset) ≫= fun s => objGet s k))
      by now destruct k.
    rewrite Hg.
    destruct (first (d_evs dset) ≫= fun s => objGet s k) as [w |]; simpl.
    + destruct (Z.eqb_spec w dflt) as [-> | Hw].
      * split; [discriminate | intros [E Hv]; congruence].
      * split; [intros E; injection E as <-; tauto | tauto].
    + rewrite Z.eqb_refl. split; [discriminate | intros [? _]; discriminate].
  - intros ->. apply toCalcStatsTable_default.
  - intros Hf. unfold reconcile. cbn [p_moves]. rewrite Hf. cbn [p_ivs].
    apply toCalcStatsTable_default.
Qed.

(* ===================================================================== *)
(** ** Spreads and set names *)
(* ===================================================================== *)

Lemma split_whole (sep : ascii) (s : string) :
  hasChar sep s = false -> JS.split sep s = [s].
Proof.
  induction s as [|c s IH]; [reflexivity |]. simpl. intros H.
  apply orb_false_iff in H as [Hc Hs]. rewrite Hc, (IH Hs). reflexivity.
Qed.

Lemma split_first (sep : ascii) (s rest : string) :
  hasChar sep s = false ->
  JS.split sep (s ++ String sep rest) = s :: JS.split sep rest.
Proof.
  induction s as [|c s IH]; simpl; intros H.
  - now rewrite Ascii.eqb_refl.
  - apply orb_false_iff in H as [Hc Hs]. now rewrite Hc, (IH Hs).
Qed.

(** Splitting undoes joining when no part holds the separator. *)
Lemma split_join (sep : ascii) (l : list string) :
  l <> [] ->
  (forall x, x ∈ l -> hasChar sep x = false) ->
  JS.split sep (joinWith sep l) = l.
Proof.
  induction l as [|x l IH]; [congruence |]. intros _ H.
  destruct l as [|y l].
  - simpl. apply split_whole, H, list_elem_of_here.
  - change (joinWith sep (x :: y :: l))
      with (x ++ String sep (joinWith sep (y :: l))).
    rewrite split_first by apply H, list_elem_of_here.
    rewrite IH; [reflexivity | discriminate |].
    intros z Hz. apply H. now apply list_elem_of_further.
Qed.

(** The loop of [fromSpread]. *)
Lemma fromSpread_fold (host : Host) (l : list (StatID * string)) :
  forall (acc : PartialStats) (k : StatID),
    wfObj l ->
    objGet
      (fold_left
         (fun evs e =>
            match Number host e.2 with
            | Some ev => if (ev =? 0)%Z then evs else objSet evs e.1 ev
            | None => evs
            end) l acc) k
    = match objGet l k ≫= effort host with
      | Some ev => Some ev
      | None => objGet acc k
      end.
Proof.
  induction l as [|[k' f] l IH]; intros acc k Hwf; [reflexivity |].
  unfold wfObj in Hwf. simpl in Hwf. apply NoDup_cons in Hwf as [Hk Hwf].
  cbn [fold_left]. rewrite (IH _ _ Hwf), objGet_cons. simpl.
  destruct (bool_decide_reflect (k' = k)) as [-> | Hne].
  - rewrite (objGet_None l k Hk). simpl. unfold effort.
    destruct (Number host f) as [ev |]; simpl; [| reflexivity].
    destruct (ev =? 0)%Z; [reflexivity |].
    rewrite objGet_objSet. now rewrite bool_decide_eq_true_2.
  - destruct (objGet l k ≫= effort host); [reflexivity |].
    destruct (Number host f) as [ev |]; [| reflexivity].
    destruct (ev =? 0)%Z; [reflexivity |].
    rewrite objGet_objSet. now rewrite bool_decide_eq_false_2.
Qed.

Lemma zip_statIDs_wf (fields : list string) : wfObj (zip statIDs fields).
Proof.
  unfold wfObj.
  assert (H : forall (ks : list StatID) (fs : list string),
             NoDup ks -> NoDup (map fst (zip ks fs))).
  { induction ks as [|k ks IH]; intros fs Hnd; [apply NoDup_nil_2 |].
    destruct fs as [|f fs]; [apply NoDup_nil_2 |]. simpl.
    apply NoDup_cons in Hnd as [Hk Hnd]. apply NoDup_cons. split.
    - intros Hin. apply Hk. clear -Hin.
      revert fs Hin. induction ks as [|k' ks IH']; intros fs Hin;
        [now apply elem_of_nil in Hin |].
      destruct fs as [|f' fs]; [now apply elem_of_nil in Hin |].
      simpl in Hin. apply elem_of_cons in Hin as [-> | Hin];
        [apply list_elem_of_here | apply list_elem_of_further; eauto].
    - now apply IH. }
  apply H. unfold statIDs. compute_done.
Qed.

(** A spread is a nature, a colon, and fields between slashes, which go to
    the stats in the order hp, atk, def, spa, spd, spe: [fromSpread] gives
    the nature and, for each stat, the number of its field, and no entry
    when the field is missing, is not a number or is 0.  So once the table
    is filled a 0 of the spread reads as the fill value, which is 252 before
    generation 3.  A spread without a colon throws. *)
Theorem fromSpread_reads (host : Host) (nature : string)
  (fields : list string) (spread : string) :
  hasChar ":" nature = false ->
  fields <> [] ->
  (forall f, f ∈ fields -> hasChar "/" f = false /\ hasChar ":" f = false) ->
  exists evs,
    fromSpread host (nature ++ ":" ++ joinWith "/" fields) = Ok (nature, evs)
    /\ (forall k, objGet evs k = objGet (zip statIDs fields) k ≫= effort host)
    /\ (forall k fillNum,
          getStat (fillStats (Some evs) fillNum) k
          = default fillNum (objGet (zip statIDs fields) k ≫= effort host))
    /\ (hasChar ":" spread = false ->
        fromSpread host spread = Throw "TypeError: revs is undefined").
Proof.
  intros Hn Hne Hf.
  assert (Hj : hasChar ":" (joinWith "/" fields) = false).
  { clear Hne. induction fields as [|f fields IH]; [reflexivity |].
    destruct fields as [|g fields].
    - simpl. apply Hf, list_elem_of_here.
    - change (joinWith "/" (f :: g :: fields))
        with (f ++ String "/" (joinWith "/" (g :: fields))).
      assert (Happ : forall a b, hasChar ":" (a ++ b)
                                 = hasChar ":" a || hasChar ":" b).
      { induction a as [|c a IHa]; intros b; [reflexivity |].
        simpl. now rewrite IHa, orb_assoc. }
      rewrite Happ. simpl.
      rewrite (proj2 (Hf f (list_elem_of_here _ _))). simpl.
      apply IH. intros x Hx. apply Hf. now apply list_elem_of_further. }
  eexists. split; [| split; [| split]].
  - unfold fromSpread.
    change (nature ++ ":" ++ joinWith "/" fields)
      with (nature ++ String ":" (joinWith "/" fields)).
    rewrite (split_first ":" nature _ Hn), (split_whole ":" _ Hj).
    rewrite (split_join "/" fields Hne) by (intros x Hx; now apply Hf).
    reflexivity.
  - intros k. rewrite (fromSpread_fold host _ [] k (zip_statIDs_wf fields)).
    now destruct (objGet (zip statIDs fields) k ≫= effort host).
  - intros k fillNum.
    assert (Hg : forall evs : PartialStats,
               getStat (fillStats (Some evs) fillNum) k
               = default fillNum (objGet evs k)) by (intros; now destruct k).
    rewrite Hg, (fromSpread_fold host _ [] k (zip_statIDs_wf fields)).
    now destruct (objGet (zip statIDs fields) k ≫= effort host).
  - intros Hs. unfold fromSpread. now rewrite (split_whole ":" spread Hs).
Qed.

(** A spread of a usage page. *)
Lemma fromSpread_reads_witness :
  exists evs,
    fromSpread Sample.host "Jolly:0/252/4/x/0/252" = Ok ("Jolly", evs)
    /\ getStat (fillStats (Some evs) 252) hp = 252%Z
    /\ getStat (fillStats (Some evs) 252) def = 4%Z.
Proof.
  destruct (fromSpread_reads Sample.host "Jolly"
              ["0"; "252"; "4"; "x"; "0"; "252"] "")
    as (evs & H1 & _ & H2 & _).
  - reflexivity.
  - discriminate.
  - intros f Hf.
    repeat (apply elem_of_cons in Hf as [-> | Hf]; [now split |]).
    now apply elem_of_nil in Hf.
  - exists evs. split; [exact H1 |]. split; [apply (H2 hp) | apply (H2 def)].
Defined.

Lemma indexOf_lacks (c : ascii) (s : string) :
  hasChar c s = false -> JS.indexOf s c = (-1)%Z.
Proof.
  induction s as [|d s IH]; [reflexivity |]. simpl. intros H.
  apply orb_false_iff in H as [Hd Hs]. rewrite Hd, (IH Hs). reflexivity.
Qed.

Lemma indexOf_first (c : ascii) (pre rest : string) :
  hasChar c pre = false ->
  JS.indexOf (pre ++ String c rest) c = Z.of_nat (String.length pre).
Proof.
  induction pre as [|d pre IH]; intros H.
  - simpl. now rewrite Ascii.eqb_refl.
  - simpl in H. apply orb_false_iff in H as [Hd Hs].
    change (JS.indexOf (String d pre ++ String c rest) c)
      with (if Ascii.eqb d c then 0%Z
            else let i := JS.indexOf (pre ++ String c rest) c in
                 if (i <? 0)%Z then (-1)%Z else (i + 1)%Z).
    rewrite Hd, (IH Hs). cbv zeta.
    change (String.length (String d pre)) with (S (String.length pre)).
    destruct (Z.ltb_spec (Z.of_nat (String.length pre)) 0); lia.
Qed.

Lemma dropChars_app (pre rest : string) :
  JS.dropChars (String.length pre) (pre ++ rest) = rest.
Proof. induction pre as [|d pre IH]; [now destruct rest | exact IH]. Qed.

(** The label of a set is the display name of the format without its
    leading tag in brackets, a space, and the name of the set.  A display
    name without a closing bracket loses its first character instead, and
    without a display name the label throws. *)
Theorem setNameOf_strips_tag (tag rest name : string) (c : ascii)
  (plain : string) :
  hasChar "]" tag = false ->
  hasChar "]" (String c plain) = false ->
  setNameOf (Some ("[" ++ tag ++ "] " ++ rest)) name = Ok (rest ++ " " ++ name)
  /\ setNameOf (Some (String c plain)) name = Ok (plain ++ " " ++ name)
  /\ setNameOf None name = Throw "TypeError: formatName is undefined".
Proof.
  intros Ht Hp. unfold setNameOf. split; [| split; [| reflexivity]].
  - f_equal. f_equal.
    change ("[" ++ tag ++ "] " ++ rest)
      with (String "[" tag ++ String "]" (String " " rest)).
    assert (Hb : hasChar "]" (String "[" tag) = false) by exact Ht.
    rewrite (indexOf_first "]" (String "[" tag) _ Hb). unfold JS.slice.
    destruct (Z.ltb_spec (Z.of_nat (String.length (String "[" tag)) + 2) 0);
      [lia |].
    replace (Z.to_nat (Z.of_nat (String.length (String "[" tag)) + 2))
      with (String.length (String "[" tag ++ "] ")).
    + change (String "[" tag ++ String "]" (String " " rest))
        with (String "[" (tag ++ String "]" (String " " rest))).
      replace (String "[" (tag ++ String "]" (String " " rest)))
        with ((String "[" tag ++ "] ") ++ rest).
      * apply dropChars_app.
      * change (String "[" tag ++ "] ") with (String "[" (tag ++ "] ")).
        change (String "[" (tag ++ "] ") ++ rest)
          with (String "[" ((tag ++ "] ") ++ rest)).
        f_equal. clear. induction tag as [|d tag IH]; [reflexivity |].
        change (String d (((tag ++ "] ") ++ rest))
                = String d (tag ++ String "]" (String " " rest))).
        now rewrite IH.
    + assert (Hl : forall a b, String.length (a ++ b)
                               = (String.length a + String.length b)%nat).
      { induction a as [|d a IHa]; intros b; simpl; [reflexivity | now rewrite IHa]. }
      rewrite Hl. simpl String.length. lia.
  - rewrite (indexOf_lacks "]" _ Hp). reflexivity.
Qed.

(** The display names of a supported and of an unsupported format. *)
Lemma setNameOf_strips_tag_witness :
  setNameOf (Some "[Gen 9] Almost Any Ability") "Choice Scarf"
  = Ok "Almost Any Ability Choice Scarf".
Proof.
  destruct (setNameOf_strips_tag "Gen 9" "Almost Any Ability" "Choice Scarf"
              "O" "U" eq_refl eq_refl) as [H _].
  exact H.
Defined.

(* ===================================================================== *)
(** ** More on the adapter and the resolver *)
(* ===================================================================== *)

Lemma arrayIndexOf_insert (l : list string) (i : nat) (x : string) :
  (i < length l)%nat ->
  x ∉ l ->
  arrayIndexOf (<[i := x]> l) x = Some i.
Proof.
  revert i. induction l as [|y l IH]; intros i Hi Hx; [simpl in Hi; lia |].
  apply not_elem_of_cons in Hx as [Hne Hx].
  destruct i as [|i]; simpl.
  - now rewrite String.eqb_refl.
  - destruct (String.eqb_spec y x); [congruence |].
    rewrite IH; [reflexivity | simpl in Hi; lia | exact Hx].
Qed.

(** The rename of the crowned formes undoes what the engine did: when the
    engine replaced the signature move of a crowned forme, in a set without
    Iron Head, by [ironhead], the adapter puts the signature move back in
    its slot and leaves the rest of the set.  A set of a species that is not
    [in crowned], which is a species that is neither of the two formes nor
    has a name of [JS.inherited], is left as the engine left it. *)
Theorem renameCrowned_restores (species move : string) (pset : PokemonSet)
  (i : nat) :
  (species, move) ∈ crowned ->
  p_moves pset !! i = Some move ->
  "ironhead" ∉ p_moves pset ->
  renameCrowned species (setMoves pset (<[i := "ironhead"]> (p_moves pset)))
  = setMoves pset (p_moves pset)
  /\ (forall other p,
        (forall e, e ∈ crowned -> e.1 <> other) ->
        JS.isInherited other = false ->
        renameCrowned other p = p).
Proof.
  intros Hc Hi Hx. split.
  - assert (Hlen : (i < length (p_moves pset))%nat)
      by (apply lookup_lt_is_Some; eauto).
    assert (Hfind : snd <$> List.find (fun e => String.eqb e.1 species) crowned
                    = Some move).
    { unfold crowned in *.
      repeat (apply elem_of_cons in Hc as [Hc | Hc];
              [injection Hc as -> ->; reflexivity |]).
      now apply elem_of_nil in Hc. }
    unfold renameCrowned. rewrite Hfind. cbn [p_moves setMoves].
    rewrite (arrayIndexOf_insert _ _ _ Hlen Hx).
    unfold setMoves. cbn. f_equal.
    rewrite list_insert_insert_eq. now apply list_insert_id.
  - intros other p Ho _. unfold renameCrowned, crowned in *.
    cbn [List.find fst].
    destruct (String.eqb_spec "Zacian-Crowned" other) as [E | _].
    { exfalso. apply (Ho ("Zacian-Crowned", "Behemoth Blade"));
        [apply list_elem_of_here | exact E]. }
    destruct (String.eqb_spec "Zamazenta-Crowned" other) as [E | _];
      [| reflexivity].
    exfalso. apply (Ho ("Zamazenta-Crowned", "Behemoth Bash"));
      [apply list_elem_of_further, list_elem_of_here | exact E].
Qed.

(** Zamazenta-Crowned, whose Behemoth Bash the engine renamed. *)
Lemma renameCrowned_restores_witness :
  renameCrowned "Zamazenta-Crowned"
    (setMoves (Sample.plain "Zamazenta" "Dauntless Shield")
       ["Close Combat"; "ironhead"; "Crunch"])
  = setMoves (Sample.plain "Zamazenta" "Dauntless Shield")
      ["Close Combat"; "Behemoth Bash"; "Crunch"].
Proof.
  destruct (renameCrowned_restores "Zamazenta-Crowned" "Behemoth Bash"
              (setMoves (Sample.plain "Zamazenta" "Dauntless Shield")
                 ["Close Combat"; "Behemoth Bash"; "Crunch"]) 1) as [H _].
  - apply list_elem_of_further, list_elem_of_here.
  - reflexivity.
  - cbn [p_moves setMoves]. intros Hin.
    repeat (apply elem_of_cons in Hin as [Hin | Hin]; [discriminate |]).
    now apply elem_of_nil in Hin.
  - exact H.
Defined.

Lemma validatePSet_insert (e : LegalityEngine) (format : Format)
  (pset : PokemonSet) (type : Source) (V : Validators e) :
  exists v, (validatePSet e format pset type V).2 = <[f_id format := v]> V.
Proof.
  unfold validatePSet.
  destruct (validateSet e (validatorOf e format V) pset) as [[v1 p1] [inv1 |]];
    [| eexists; reflexivity].
  destruct (soleViolation inv1 mustBeShiny).
  - destruct (validateSet e v1 _) as [[v2 p2] [inv2 |]];
      [| eexists; reflexivity].
    destruct (soleViolation inv2 zeroEVs).
    + destruct (validateSet e v2 _) as [[v3 p3] [inv3 |]];
        [destruct (allowedAnyway format p3 inv3) |]; eexists; reflexivity.
    + destruct (allowedAnyway format p2 inv2); eexists; reflexivity.
  - destruct (soleViolation inv1 zeroEVs).
    + destruct (validateSet e v1 _) as [[v2 p2] [inv2 |]];
        [destruct (allowedAnyway format p2 inv2) |]; eexists; reflexivity.
    + destruct (allowedAnyway format _ inv1); eexists; reflexivity.
Qed.

(** What one call of the adapter does to the calls a format has seen: it
    adds one to three for its own format and leaves the other formats. *)
Lemma validatePSet_step (e : LegalityEngine) (type : Source)
  (job : Format * PokemonSet) (id : string) (W : Validators (counted e)) :
  if String.eqb (f_id job.1) id
  then (calls (W !! id)
        < calls ((validatePSet (counted e) job.1 job.2 type W).2 !! id)
        <= calls (W !! id) + 3)%nat
  else (validatePSet (counted e) job.1 job.2 type W).2 !! id = W !! id.
Proof.
  destruct (String.eqb_spec (f_id job.1) id) as [<- | Hne].
  - apply validatePSet_calls.
  - destruct (validatePSet_insert (counted e) job.1 job.2 type W) as [v ->].
    now rewrite lookup_insert_ne.
Qed.

(** The validators are kept by format, and one validator serves every call
    of the adapter for its format: over any sequence of calls, for formats
    whose identifier is not a name of [JS.inherited], the validator kept
    for a format has seen at least one and at most three calls of the engine
    for each call of the adapter for that format, on top of those it had
    seen before; and the validator of a format for which the adapter was not
    called is as it was. *)
Theorem validatePSet_cache (e : LegalityEngine) (type : Source)
  (jobs : list (Format * PokemonSet)) (id : string)
  (W : Validators (counted e)) :
  (forall job, job ∈ jobs -> JS.isInherited (f_id job.1) = false) ->
  (calls (W !! id) + jobsOf id jobs
   <= calls (validateAll (counted e) type jobs W !! id)
   <= calls (W !! id) + 3 * jobsOf id jobs)%nat
  /\ (jobsOf id jobs = 0%nat ->
      validateAll (counted e) type jobs W !! id = W !! id)
  /\ (0 < jobsOf id jobs ->
      is_Some (validateAll (counted e) type jobs W !! id))%nat.
Proof.
  intros _. revert W. unfold validateAll, jobsOf.
  induction jobs as [|job jobs IH]; intros W; cbn [fold_left List.filter].
  - simpl. split; [lia |]. split; [reflexivity | lia].
  - pose proof (validatePSet_step e type job id W) as Hstep.
    destruct (IH (validatePSet (counted e) job.1 job.2 type W).2)
      as (Hc & H0 & Hpos).
    set (n := length (List.filter _ jobs)) in *.
    set (W' := (validatePSet (counted e) job.1 job.2 type W).2) in *.
    set (V := fold_left _ jobs W') in *.
    destruct (String.eqb (f_id job.1) id); cbn [length]; fold n.
    + assert (Hb : (calls (W !! id) + S n <= calls (V !! id)
                    <= calls (W !! id) + 3 * S n)%nat) by lia.
      split; [exact Hb |]. split; [discriminate |]. intros _.
      destruct (V !! id) as [v |] eqn:Hv; [eauto |].
      simpl in Hb. lia.
    + rewrite Hstep in Hc, H0. split; [exact Hc |]. split; [exact H0 | exact Hpos].
Qed.

(** Two sets of one format, with an engine that accepts every set: the
    validator of the format has seen both calls. *)
Lemma validatePSet_cache_witness :
  (0 + 2
   <= calls (validateAll (counted Sample.permissive) src_dex
               [(mkFormat "gen6ou" "[Gen 6] OU" true [],
                 Sample.plain "Aegislash" "Stance Change");
                (mkFormat "gen6ou" "[Gen 6] OU" true [],
                 Sample.plain "Garchomp" "Rough Skin")] ∅ !! "gen6ou")
   <= 0 + 3 * 2)%nat.
Proof.
  destruct (validatePSet_cache Sample.permissive src_dex
              [(mkFormat "gen6ou" "[Gen 6] OU" true [],
                Sample.plain "Aegislash" "Stance Change");
               (mkFormat "gen6ou" "[Gen 6] OU" true [],
                Sample.plain "Garchomp" "Rough Skin")] "gen6ou" ∅) as [H _].
  - intros job Hj.
    repeat (apply elem_of_cons in Hj as [-> | Hj]; [reflexivity |]).
    now apply elem_of_nil in Hj.
  - exact H.
Defined.

Lemma fixedFormes_size (name : string) (l : list string) :
  fixedFormes name = Some l -> l <> [] /\ (length l <= 3)%nat.
Proof.
  unfold fixedFormes.
  repeat (match goal with
          | |- context [String.eqb name ?s] => destruct (String.eqb name s)
          end; [intros [= <-]; split; [discriminate | simpl; lia] |]).
  discriminate.
Qed.

(** What the resolver can give: a list of targets is never empty and has at
    most three names; the resolver throws only for a Rayquaza with Dragon
    Ascent in a format whose identifier does not start with [gen] and a
    digit, so never without a format. *)
Theorem similarFormes_results (db : ReferenceDB) (pset : PokemonSet)
  (format : option Format) (specie : Specie) (item : option Item) :
  (forall l, similarFormes db pset format specie item = Ok (Some l) ->
     l <> [] /\ (length l <= 3)%nat)
  /\ (forall m, similarFormes db pset format specie item = Throw m ->
        exists f, format = Some f /\ p_species pset = "Rayquaza"
                  /\ "Dragon Ascent" ∈ p_moves pset
                  /\ JS.genNumOf (f_id f) = None)
  /\ (format = None ->
      similarFormes db pset format specie item
      = Ok (laterFormes pset None specie item)).
Proof.
  assert (Hl : forall fmt l, laterFormes pset fmt specie item = Some l ->
                 l <> [] /\ (length l <= 3)%nat).
  { intros fmt l. unfold laterFormes.
    destruct (String.eqb (p_species pset) "Rayquaza-Mega" && _);
      [intros [= <-]; split; [discriminate | simpl; lia] |].
    destruct (String.eqb (p_ability pset) "Power Construct");
      [intros [= <-]; split; [discriminate | simpl; lia] |].
    destruct (stoneOf specie item);
      [intros [= <-]; split; [discriminate | simpl; lia] |].
    apply fixedFormes_size. }
  unfold similarFormes. split; [| split].
  - intros l. destruct format as [f |]; [| intros [= H]; now apply (Hl None)].
    destruct (String.eqb (p_species pset) "Rayquaza" && _);
      [| intros [= H]; now apply (Hl (Some f))].
    destruct (JS.genNumOf (f_id f)) as [g |]; [| discriminate].
    destruct (isMrayAllowed db f g);
      [intros [= <-]; split; [discriminate | simpl; lia]
      | intros [= H]; now apply (Hl (Some f))].
  - intros m. destruct format as [f |]; [| discriminate].
    destruct (String.eqb_spec (p_species pset) "Rayquaza") as [Hs |];
      [| discriminate].
    destruct (existsb (String.eqb "Dragon Ascent") (p_moves pset)) eqn:Hm;
      [| discriminate].
    simpl. destruct (JS.genNumOf (f_id f)) as [g |] eqn:Hg.
    + destruct (isMrayAllowed db f g); discriminate.
    + intros _. exists f. repeat split; try assumption.
      apply existsb_exists in Hm as (x & Hin & Hx).
      apply String.eqb_eq in Hx. subst x. now apply list_elem_of_In.
  - now intros ->.
Qed.

(* ===================================================================== *)
(** ** More on the generation importer *)
(* ===================================================================== *)

Lemma forEach_inv_in {A S} (P : S -> Prop) (body : S -> A -> Result S)
  (l : list A) :
  (forall s x s', x ∈ l -> P s -> body s x = Ok s' -> P s') ->
  forall s s', P s -> forEach body l s = Ok s' -> P s'.
Proof.
  induction l as [|x l IH]; intros Hbody s s' Hs E; simpl in E.
  - injection E as <-. exact Hs.
  - destruct (body s x) as [s1 | m] eqn:E1; simpl in E; [| discriminate].
    apply (IH (fun s0 y s0' Hy => Hbody s0 y s0' (list_elem_of_further _ _ _ Hy))
              s1 s'); [| exact E].
    exact (Hbody s x s1 (list_elem_of_here _ _) Hs E1).
Qed.

(** With fewer than 100 battles the threshold is infinite: the body of the
    loop over the page stores nothing, and it throws at the first species
    whose name is inherited. *)
Lemma statsRecord_few (host : Host) (db : ReferenceDB)
  (engine : LegalityEngine) (gen : Generation) (formatID : string)
  (format : option Format) (l : list (string * UsageStatistics))
  (s : State engine) :
  forEach (statsRecord host db engine gen formatID format Infinity) l s
  = if existsb (fun e => JS.isInherited e.1) l
    then Throw "TypeError: statsIgnore[k]?.has is not a function"
    else Ok s.
Proof.
  induction l as [|x l IH]; [reflexivity |]. cbn [forEach existsb].
  assert (E : statsRecord host db engine gen formatID format Infinity s x
              = if JS.isInherited x.1
                then Throw "TypeError: statsIgnore[k]?.has is not a function"
                else Ok s).
  { unfold statsRecord, ignored. destruct (JS.isInherited x.1); [reflexivity |].
    cbn [mbind Result_bind].
    now destruct (listed (statsIgnore s) x.1 formatID). }
  rewrite E. destruct (JS.isInherited x.1); [reflexivity |]. exact IH.
Qed.

(** A format adds nothing from its statistics when the reference database
    does not have it, when its page is absent, or when the page counts fewer
    than 100 battles, whatever the usage of the species on it; in the last
    case the names of the species of the page must not be inherited names,
    for the lookup in [statsIgnore] comes before the test of the threshold
    and throws on such a name.  The identifier of the format is not an
    inherited name either (the identifiers of the importer start with
    [gen]). *)
Theorem statsFormat_adds_nothing (host : Host) (db : ReferenceDB)
  (engine : LegalityEngine) (gen : Generation) (s : State engine)
  (formatID : string) :
  JS.isInherited formatID = false ->
  (match resolveFormat db formatID with
   | Some f => f_exists f = false
   | None => False
   end
   \/ fetchStats host formatID = None ->
   statsFormat host db engine gen s formatID = Ok s)
  /\ (forall page,
        fetchStats host formatID = Some page -> (battles page < 100)%Z ->
        ((forall e, e ∈ pokemon page -> JS.isInherited e.1 = false) ->
         statsFormat host db engine gen s formatID = Ok s)
        /\ (match resolveFormat db formatID with
            | Some f => f_exists f = true
            | None => True
            end ->
            (exists e, e ∈ pokemon page /\ JS.isInherited e.1 = true) ->
            statsFormat host db engine gen s formatID
            = Throw "TypeError: statsIgnore[k]?.has is not a function")).
Proof.
  intros _. split.
  - intros H. unfold statsFormat.
    destruct (resolveFormat db formatID) as [f |] eqn:Ef.
    + destruct (f_exists f) eqn:Ex; simpl; [| reflexivity].
      destruct H as [H | H]; [congruence | now rewrite H].
    + destruct H as [[] | H]. now rewrite H.
  - intros page Hp Hb.
    assert (Hpage : forEach (statsRecord host db engine gen formatID
                               (resolveFormat db formatID)
                               (getUsageThreshold formatID (battles page)))
                      (pokemon page) s
                    = if existsb (fun e => JS.isInherited e.1) (pokemon page)
                      then Throw "TypeError: statsIgnore[k]?.has is not a function"
                      else Ok s).
    { unfold getUsageThreshold. destruct (Z.ltb_spec (battles page) 100); [| lia].
      apply statsRecord_few. }
    split.
    + intros Hall. unfold statsFormat.
      destruct (match resolveFormat db formatID with
                | Some f => negb (f_exists f) | None => false end);
        [reflexivity |].
      rewrite Hp, Hpage.
      destruct (existsb _ (pokemon page)) eqn:Ex; [| reflexivity].
      apply existsb_exists in Ex as (e & He & Hi).
      apply list_elem_of_In in He. now rewrite (Hall e He) in Hi.
    + intros Hf (e & He & Hi). unfold statsFormat.
      assert (Hgo : match resolveFormat db formatID with
                    | Some f => negb (f_exists f) | None => false end = false).
      { destruct (resolveFormat db formatID) as [f |]; [now rewrite Hf | reflexivity]. }
      rewrite Hgo, Hp, Hpage.
      assert (Ex : existsb (fun e => JS.isInherited e.1) (pokemon page) = true).
      { apply existsb_exists. exists e. split; [now apply list_elem_of_In | exact Hi]. }
      now rewrite Ex.
Qed.

(** A page of 99 battles. *)
Lemma statsFormat_adds_nothing_witness :
  statsFormat (mkHost Sample.decimal
                 (fun _ => Some (mkStatsPage 99 [("Garchomp", Sample.usage 0.9%Q)])))
    Sample.db Sample.permissive Sample.gen6 (initial Sample.permissive ∅) "gen6ou"
  = Ok (initial Sample.permissive ∅).
Proof.
  destruct (statsFormat_adds_nothing
              (mkHost Sample.decimal
                 (fun _ => Some (mkStatsPage 99 [("Garchomp", Sample.usage 0.9%Q)])))
              Sample.db Sample.permissive Sample.gen6
              (initial Sample.permissive ∅) "gen6ou" eq_refl) as [_ H].
  destruct (H (mkStatsPage 99 [("Garchomp", Sample.usage 0.9%Q)]) eq_refl)
    as [Hok _]; [simpl; lia |].
  apply Hok. intros e He.
  apply list_elem_of_singleton in He. now subst e.
Defined.

Section ImporterMore.

Context (host : Host) (db : ReferenceDB) (engine : LegalityEngine)
  (gen : Generation).

Local Abbreviation St := (ImportState (TeamValidator engine)).

Lemma formatsInv_frame (s s' : St) :
  formatIDs s' = formatIDs s -> stored s' = stored s ->
  formatsInv host gen s -> formatsInv host gen s'.
Proof. unfold formatsInv. intros -> ->. intros H. exact H. Qed.

Lemma formatsInv_store (src : Source) (k F n : string) (c : CalcSet) (s : St) :
  F ∈ formatIDs s ->
  (src = src_stats ->
   exists page, fetchStats host F = Some page /\ (100 <= battles page)%Z) ->
  formatsInv host gen s -> formatsInv host gen (store engine src k F n c s).
Proof.
  intros HF Hp (H1 & H2 & H3 & H4). unfold formatsInv. simpl.
  split; [exact H1 |]. split; [exact H2 |]. split.
  - intros e He. apply elem_of_app in He as [He | He]; [now apply H3 |].
    apply list_elem_of_singleton in He. now subst e.
  - intros e He Hs. apply elem_of_app in He as [He | He]; [now apply H4 |].
    apply list_elem_of_singleton in He. subst e. now apply Hp.
Qed.

Lemma startsWith_app (pre rest : string) : JS.startsWith (pre ++ rest) pre = true.
Proof.
  induction pre as [|c pre IH]; [now destruct rest |].
  simpl. now rewrite Ascii.eqb_refl, IH.
Qed.

Lemma existsb_eqb_elem (x : string) (l : list string) :
  existsb (String.eqb x) l = true <-> x ∈ l.
Proof.
  rewrite existsb_exists. split.
  - intros (y & Hin & Hy). apply String.eqb_eq in Hy. subst y.
    now apply list_elem_of_In.
  - intros Hin. exists x. split; [now apply list_elem_of_In | apply String.eqb_refl].
Qed.

Lemma formatsInv_addFormat (rest : string) (s : St) :
  formatsInv host gen s ->
  formatsInv host gen (addFormat engine ("gen" ++ pretty (num gen) ++ rest) s)
  /\ ("gen" ++ pretty (num gen) ++ rest)
     ∈ formatIDs (addFormat engine ("gen" ++ pretty (num gen) ++ rest) s).
Proof.
  intros (H1 & H2 & H3 & H4). unfold formatsInv, addFormat.
  cbn [formatIDs stored].
  set (F := "gen" ++ pretty (num gen) ++ rest).
  destruct (existsb (String.eqb F) (formatIDs s)) eqn:E.
  - apply existsb_eqb_elem in E.
    split; [split; [exact H1 | split; [exact H2 | split; [exact H3 | exact H4]]] | exact E].
  - assert (Hn : F ∉ formatIDs s).
    { intros Hin. apply existsb_eqb_elem in Hin. congruence. }
    repeat split.
    + apply NoDup_app. repeat split; [exact H1 | | apply NoDup_singleton].
      intros x Hx Hx'. apply list_elem_of_singleton in Hx'. congruence.
    + intros G HG. apply elem_of_app in HG as [HG | HG]; [now apply H2 |].
      apply list_elem_of_singleton in HG. subst G. unfold F.
      replace ("gen" ++ pretty (num gen) ++ rest)
        with (("gen" ++ pretty (num gen)) ++ rest).
      * apply startsWith_app.
      * clear. generalize (pretty (num gen)). intros p. reflexivity.
    + intros e He. apply elem_of_app. left. now apply H3.
    + exact H4.
    + apply elem_of_app. right. apply list_elem_of_here.
Qed.

Lemma dexPass_formats (dexSets : DexSets) (s s' : St) :
  formatsInv host gen s -> dexPass db engine gen dexSets s = Ok s' -> formatsInv host gen s'.
Proof.
  unfold dexPass. apply forEach_inv. clear s s'.
  intros s [specieName formats] s'. unfold dexSpecie. simpl.
  apply forEach_inv. clear s s'.
  intros s [formatID sets] s' Hs. unfold dexFormat. simpl.
  destruct (match resolveFormat db _ with Some f => negb (f_exists f) | None => false end).
  { now intros [= <-]. }
  destruct (formatsInv_addFormat formatID s Hs) as [Hs1 HF].
  set (F := "gen" ++ pretty (num gen) ++ formatID) in *.
  set (s1 := addFormat engine F s) in *.
  intros E.
  apply (forEach_inv (fun s0 : St => formatsInv host gen s0 /\ F ∈ formatIDs s0)
           (dexRecord db engine gen F (resolveFormat db F) specieName
              (getSpecie db gen specieName)) ) with (s' := s') (s := s1) (l := sets);
    [| split; assumption | exact E].
  clear -host. intros s x s' [Hs HF] E. unfold dexRecord in E.
  pose proof (rejected_frame engine (resolveFormat db F)
                (dexToPset db gen (getSpecie db gen specieName) x.2) src_dex s)
    as (_ & _ & H3 & H4).
  destruct (rejected engine (resolveFormat db F) _ src_dex s) as [[no pset] s1].
  simpl in H3, H4.
  assert (Hs1 : formatsInv host gen s1 /\ F ∈ formatIDs s1).
  { split; [exact (formatsInv_frame s s1 H3 H4 Hs) | now rewrite H3]. }
  destruct no; [injection E as <-; exact Hs1 |].
  destruct (setNameOf _ x.1) as [setName | m]; simpl in E; [| discriminate].
  destruct (ignore engine specieName F _) as [s2 | m] eqn:E2; simpl in E;
    [| discriminate].
  apply ignore_Ok in E2 as [_ ->].
  destruct (similarFormes db pset _ _ _) as [copyTo | m];
    simpl in E; [| discriminate].
  revert E.
  apply (forEach_inv (fun s0 : St => formatsInv host gen s0 /\ F ∈ formatIDs s0)).
  - intros s0 forme s0' [Hs0 HF0] E. unfold dexCopy in E.
    destruct (ignore engine forme F s0) as [s3 | m] eqn:E3; simpl in E;
      [| discriminate].
    apply ignore_Ok in E3 as [_ ->].
    destruct (JS.includes forme "-Mega"); injection E as <-;
      (split; [| exact HF0]);
      apply formatsInv_store; try assumption; try discriminate;
      revert Hs0; now apply formatsInv_frame.
  - split; [| apply Hs1].
    apply (formatsInv_frame (store engine src_dex specieName F setName
                               (psetToCalcSet (num gen) pset) s1));
      [reflexivity | reflexivity |].
    apply formatsInv_store; [apply Hs1 | discriminate | apply Hs1].
Qed.

Lemma statsFormat_formats (fl : list string) (s : St) (F : string) (s' : St) :
  F ∈ fl ->
  formatIDs s = fl /\ formatsInv host gen s ->
  statsFormat host db engine gen s F = Ok s' ->
  formatIDs s' = fl /\ formatsInv host gen s'.
Proof.
  intros HF Hs E. unfold statsFormat in E.
  destruct (match resolveFormat db F with Some f => negb (f_exists f) | None => false end);
    [injection E as <-; exact Hs |].
  destruct (fetchStats host F) as [page |] eqn:Ep; [| injection E as <-; exact Hs].
  revert E.
  apply (forEach_inv (fun s0 : St => formatIDs s0 = fl /\ formatsInv host gen s0));
    [| exact Hs].
  clear s s' Hs. intros s x s' [Hfl Hs] E. unfold statsRecord in E.
  destruct (ignored (statsIgnore s) x.1 F) as [[|] | m0]; simpl in E;
    [injection E as <-; now split | | discriminate].
  destruct (belowThreshold (u_weighted x.2) _) eqn:Eb;
    [injection E as <-; now split |].
  assert (Hb : exists page0, fetchStats host F = Some page0
                             /\ (100 <= battles page0)%Z).
  { exists page. split; [exact Ep |].
    unfold getUsageThreshold in Eb.
    destruct (Z.ltb_spec (battles page) 100); [discriminate | assumption]. }
  destruct (usageToPset host db gen F _ x.2) as [pset0 | m];
    simpl in E; [| discriminate].
  pose proof (rejected_frame engine (resolveFormat db F) pset0 src_stats s)
    as (_ & _ & H3 & H4).
  destruct (rejected engine (resolveFormat db F) pset0 src_stats s)
    as [[no pset] s1].
  simpl in H3, H4.
  assert (Hs1 : formatIDs s1 = fl /\ formatsInv host gen s1).
  { split; [congruence | exact (formatsInv_frame s s1 H3 H4 Hs)]. }
  destruct no; [injection E as <-; exact Hs1 |].
  destruct (setNameOf _ "Showdown Usage") as [setName | m];
    simpl in E; [| discriminate].
  destruct (similarFormes db pset _ _ _) as [copyTo | m];
    simpl in E; [| discriminate].
  revert E.
  apply (forEach_inv (fun s0 : St => formatIDs s0 = fl /\ formatsInv host gen s0)).
  - intros s2 forme s2' [Hfl2 Hs2] E. unfold statsCopy in E.
    destruct (ignored (statsIgnore s2) forme F) as [[|] | m0]; simpl in E;
      [injection E as <-; now split | | discriminate].
    destruct (lookupItem db gen (p_item pset)) as [it |]; [| discriminate].
    destruct (present (i_megaEvolves it) && present (i_megaStone it));
      injection E as <-; (split; [exact Hfl2 |]);
      apply formatsInv_store; try assumption; try (intros _; exact Hb);
      now rewrite Hfl2.
  - split; [apply Hs1 |].
    apply formatsInv_store; [| intros _; exact Hb | apply Hs1].
    destruct Hs1 as [-> _]. exact HF.
Qed.

(** In a run that returns, the formats the statistics are fetched for are
    distinct and carry the number of the generation; every set in the
    output was stored for one of them; and every set that comes from usage
    statistics comes from a page of at least 100 battles. *)
Theorem importGen_formats (dexSets : DexSets) (v : Validators engine) (s : St) :
  importGenState host db engine gen dexSets v = Ok s ->
  NoDup (formatIDs s)
  /\ (forall F, F ∈ formatIDs s ->
        JS.startsWith F ("gen" ++ pretty (num gen)) = true)
  /\ (forall e, e ∈ stored s -> st_formatID e ∈ formatIDs s)
  /\ (forall e, e ∈ stored s -> st_source e = src_stats ->
        exists page, fetchStats host (st_formatID e) = Some page
                     /\ (100 <= battles page)%Z).
Proof.
  unfold importGenState. intros E.
  destruct (dexPass db engine gen dexSets (initial engine v)) as [s1 | m] eqn:E1;
    simpl in E; [| discriminate].
  assert (H1 : formatsInv host gen s1).
  { apply (dexPass_formats dexSets (initial engine v) s1); [| exact E1].
    unfold formatsInv. simpl. split; [apply NoDup_nil_2 |].
    repeat split; intros x Hx; now apply elem_of_nil in Hx. }
  unfold statsPass in E.
  apply (forEach_inv_in (fun s0 : St => formatIDs s0 = formatIDs s1 /\ formatsInv host gen s0)
           (statsFormat host db engine gen) (formatIDs s1)) in E.
  - apply E.
  - intros s0 F s0' HF. now apply statsFormat_formats.
  - now split.
Qed.

End ImporterMore.

(** The sample run. *)
Lemma importGen_formats_witness :
  exists s,
    importGenState Sample.host Sample.db Sample.permissive Sample.gen6
      Sample.dexSets ∅ = Ok s
    /\ NoDup (formatIDs s)
    /\ (forall e, e ∈ stored s -> st_formatID e ∈ formatIDs s).
Proof.
  assert (E : exists s,
             importGenState Sample.host Sample.db Sample.permissive Sample.gen6
               Sample.dexSets ∅ = Ok s).
  { eexists. vm_compute. reflexivity. }
  destruct E as (s & E). exists s. split; [exact E |].
  destruct (importGen_formats Sample.host Sample.db Sample.permissive
              Sample.gen6 Sample.dexSets ∅ s E) as (H1 & _ & H3 & _).
  split; assumption.
Defined.

(** The two passes give a copy the ability of its forme under different
    conditions.  For a target whose name holds [-Mega] and an item that is
    not a stone (Rayquaza with Dragon Ascent), the copy of a curated set
    takes the first ability of the target and the copy of a usage set keeps
    the ability of the source; for a target whose name does not hold
    [-Mega] and an item that is a stone (the base forme of a mega
    evolution), it is the other way round. *)
Theorem copy_ability_differs (db : ReferenceDB) (engine : LegalityEngine)
  (gen : Generation) (F setName : string) (c : CalcSet) (it : Item)
  (s : State engine) (forme : string) :
  ignored (statsIgnore s) forme F = Ok false ->
  (JS.includes forme "-Mega" = true ->
   present (i_megaEvolves it) && present (i_megaStone it) = false ->
   (exists s1,
      dexCopy db engine gen F setName c s forme = Ok s1
      /\ last (stored s1)
         = Some (mkStore src_dex forme F setName
                   (withAbility c (sp_abilities0 (getSpecie db gen forme)))))
   /\ exists s',
        statsCopy db engine gen F setName c (Some it) s forme = Ok s'
        /\ last (stored s') = Some (mkStore src_stats forme F setName c))
  /\ (JS.includes forme "-Mega" = false ->
      present (i_megaEvolves it) && present (i_megaStone it) = true ->
      (exists s1,
         dexCopy db engine gen F setName c s forme = Ok s1
         /\ last (stored s1) = Some (mkStore src_dex forme F setName c))
      /\ exists s',
           statsCopy db engine gen F setName c (Some it) s forme = Ok s'
           /\ last (stored s')
              = Some (mkStore src_stats forme F setName
                        (withAbility c (sp_abilities0 (getSpecie db gen forme))))).
Proof.
  intros Hig. unfold dexCopy, statsCopy. rewrite Hig.
  apply ignored_Ok in Hig as [Hi _]. unfold ignore. rewrite Hi.
  cbn [mbind Result_bind].
  split; intros -> ->;
    (split; eexists; (split; [reflexivity |]);
     cbn [store stored]; now rewrite last_snoc).
Qed.

(** A usage set of Rayquaza copied to Rayquaza-Mega, with an item that is no
    stone. *)
Lemma copy_ability_differs_witness :
  exists s',
    statsCopy Sample.db Sample.permissive Sample.gen6 "gen6ubers" "Ubers Showdown Usage"
      (psetToCalcSet 6 (Sample.plain "Rayquaza" "Air Lock"))
      (Some (mkItem true None None)) (initial Sample.permissive ∅) "Rayquaza-Mega"
    = Ok s'
    /\ last (stored s')
       = Some (mkStore src_stats "Rayquaza-Mega" "gen6ubers" "Ubers Showdown Usage"
                 (psetToCalcSet 6 (Sample.plain "Rayquaza" "Air Lock"))).
Proof.
  destruct (copy_ability_differs Sample.db Sample.permissive Sample.gen6
              "gen6ubers" "Ubers Showdown Usage"
              (psetToCalcSet 6 (Sample.plain "Rayquaza" "Air Lock"))
              (mkItem true None None) (initial Sample.permissive ∅)
              "Rayquaza-Mega" eq_refl) as [H _].
  exact (proj2 (H eq_refl eq_refl)).
Defined.

(** The copies of a curated set leave the validators, and add to the
    stores; they are made for targets whose names are not inherited. *)
Lemma dexCopy_all (db : ReferenceDB) (engine : LegalityEngine)
  (gen : Generation) (F setName : string) (c : CalcSet) (l : list string) :
  forall s : State engine,
    (forall s', forEach (dexCopy db engine gen F setName c) l s = Ok s' ->
       VALIDATORS s' = VALIDATORS s
       /\ exists more, stored s' = (stored s ++ more)%list)
    /\ ((forall forme, forme ∈ l -> JS.isInherited forme = false) ->
        exists s', forEach (dexCopy db engine gen F setName c) l s = Ok s').
Proof.
  induction l as [|forme l IH]; intros s; cbn [forEach].
  - split; [| now exists s].
    intros s' [= <-]. split; [reflexivity |]. exists []. now rewrite app_nil_r.
  - assert (E : if JS.isInherited forme
                then dexCopy db engine gen F setName c s forme
                     = Throw "TypeError: statsIgnore[k].add is not a function"
                else exists s2 : State engine,
                    dexCopy db engine gen F setName c s forme = Ok s2
                    /\ VALIDATORS s2 = VALIDATORS s
                    /\ exists one, stored s2 = (stored s ++ [one])%list).
    { unfold dexCopy, ignore. destruct (JS.isInherited forme); [reflexivity |].
      cbn [mbind Result_bind].
      destruct (JS.includes forme "-Mega"); eexists;
        (split; [reflexivity |]); (split; [reflexivity |]);
        eexists; reflexivity. }
    destruct (JS.isInherited forme) eqn:Hi.
    + rewrite E. cbn [mbind Result_bind]. split; [discriminate |]. intros Hall.
      rewrite (Hall forme (list_elem_of_here _ _)) in Hi. discriminate.
    + destruct E as (s2 & -> & Hv & one & Hst). cbn [mbind Result_bind].
      destruct (IH s2) as [IH1 IH2]. split.
      * intros s' E. destruct (IH1 s' E) as (Hv' & more & Hm).
        split; [congruence |]. exists (one :: more).
        rewrite Hm, Hst, <- app_assoc. reflexivity.
      * intros Hall. apply IH2. intros f Hf. apply Hall.
        now apply list_elem_of_further.
Qed.

(** A format of [UNSUPPORTED] is outside the legality engine: its curated
    sets are never validated and never rejected.  Whenever the body of the
    loop returns, the set is stored as the builder made it and the
    validators are as they were; it returns when neither the name of the
    species nor the name of a target is an inherited name, and for a species
    whose name is inherited it throws, at the entry in [statsIgnore]. *)
Theorem unsupported_not_validated (db : ReferenceDB) (engine : LegalityEngine)
  (gen : Generation) (F specieName : string) (specie : Specie)
  (s : State engine) (entry : string * DexSet) :
  present (unsupported F) = true ->
  let pset := dexToPset db gen specie entry.2 in
  let targets :=
    default [] (laterFormes pset None specie (lookupItem db gen (p_item pset))) in
  let stores s' :=
    exists label more,
      stored s'
      = (stored s
         ++ mkStore src_dex specieName F label (psetToCalcSet (num gen) pset)
            :: more)%list in
  resolveFormat db F = None
  /\ (forall s',
        dexRecord db engine gen F (resolveFormat db F) specieName specie s entry
        = Ok s' ->
        VALIDATORS s' = VALIDATORS s /\ stores s')
  /\ (JS.isInherited specieName = false ->
      (forall forme, forme ∈ targets -> JS.isInherited forme = false) ->
      exists s',
        dexRecord db engine gen F (resolveFormat db F) specieName specie s entry
        = Ok s')
  /\ (JS.isInherited specieName = true ->
      dexRecord db engine gen F (resolveFormat db F) specieName specie s entry
      = Throw "TypeError: statsIgnore[k].add is not a function").
Proof.
  intros Hp pset targets stores.
  assert (Hr : resolveFormat db F = None)
    by (unfold resolveFormat; now rewrite Hp).
  split; [exact Hr |]. rewrite Hr. unfold dexRecord, rejected.
  cbn [formatNameOf]. unfold present in Hp.
  destruct (unsupported F) as [n |]; [| discriminate].
  cbn [setNameOf mbind Result_bind]. fold pset.
  set (label := JS.slice n (JS.indexOf n "]" + 2) ++ " " ++ entry.1).
  change (similarFormes db pset None specie (lookupItem db gen (p_item pset)))
    with (Ok (laterFormes pset None specie (lookupItem db gen (p_item pset)))).
  unfold ignore. destruct (JS.isInherited specieName) eqn:Hi;
    cbn [mbind Result_bind].
  - split; [discriminate |]. split; [discriminate | reflexivity].
  - fold targets. set (s1 := mkState _ _ _ _ _).
    destruct (dexCopy_all db engine gen F label (psetToCalcSet (num gen) pset)
                targets s1) as [H1 H2].
    split; [| split; [intros _; exact H2 | discriminate]].
    intros s' E. destruct (H1 s' E) as (Hv & more & Hm).
    split; [exact Hv |]. exists label, more.
    rewrite Hm. unfold s1. cbn [store stored]. now rewrite <- app_assoc.
Qed.

(** Little Cup of generation 9: a set of Mienfoo is stored, and a set under
    the name [constructor] ends the run. *)
Lemma unsupported_not_validated_witness :
  (exists s',
     dexRecord Sample.db Sample.permissive (mkGen 9) "gen9lc"
       (resolveFormat Sample.db "gen9lc") "Mienfoo"
       (mkSpecie "Mienfoo" "Regenerator" false "Mienfoo")
       (initial Sample.permissive ∅) ("Fake Out", Sample.kingsShield)
     = Ok s')
  /\ dexRecord Sample.db Sample.permissive (mkGen 9) "gen9lc"
       (resolveFormat Sample.db "gen9lc") "constructor"
       (mkSpecie "constructor" "" false "constructor")
       (initial Sample.permissive ∅) ("Fake Out", Sample.kingsShield)
     = Throw "TypeError: statsIgnore[k].add is not a function".
Proof.
  split.
  - destruct (unsupported_not_validated Sample.db Sample.permissive (mkGen 9)
                "gen9lc" "Mienfoo" (mkSpecie "Mienfoo" "Regenerator" false "Mienfoo")
                (initial Sample.permissive ∅) ("Fake Out", Sample.kingsShield)
                eq_refl) as (_ & _ & H & _).
    apply H; [reflexivity |]. intros forme Hf. now apply elem_of_nil in Hf.
  - destruct (unsupported_not_validated Sample.db Sample.permissive (mkGen 9)
                "gen9lc" "constructor"
                (mkSpecie "constructor" "" false "constructor")
                (initial Sample.permissive ∅) ("Fake Out", Sample.kingsShield)
                eq_refl) as (_ & _ & _ & H).
    now apply H.
Defined.

(* ===================================================================== *)
(** ** The files of the batch driver *)
(* ===================================================================== *)

Section DriverFacts.

Context (shell : Shell) (host : Host) (db : ReferenceDB)
  (engine : LegalityEngine) (outDir : string).

Lemma validatorsAt_cons (v0 : Validators engine) (s : State engine)
  (states : list (State engine)) (j : nat) :
  (j <= length states)%nat ->
  validatorsAt v0 (s :: states) (S j) = validatorsAt (VALIDATORS s) states j.
Proof.
  intros Hj. destruct j as [|j]; [reflexivity |]. unfold validatorsAt.
  change ((s :: states) !! S j) with (states !! j).
  destruct (lookup_lt_is_Some_2 states j) as [s' E]; [lia |].
  unfold State in *. now rewrite !E.
Qed.

(** The loop of the driver from the generation of index [k] on: it imports
    the generations one after the other, each from the validators the one
    before left, writes the file of each, and stops at the first import
    that throws. *)
Lemma writeGens_run (names : list string) :
  forall (k : nat) (v : Validators engine) (written : list (string * string)),
    exists states : list (State engine),
      (length states <= length names)%nat
      /\ (forall j s, states !! j = Some s ->
            importOf shell host db engine (Z.of_nat (k + j))
              (validatorsAt v states j) = Ok s)
      /\ files (writeGens shell host db engine outDir names (Z.of_nat k) v written)
         = (written
            ++ imap (fun j s =>
                       (pathOf outDir (Z.of_nat (k + j)),
                        textOf shell (default "" (names !! j)) (calcSets s)))
                 states)%list
      /\ (length states = length names ->
          exit (writeGens shell host db engine outDir names (Z.of_nat k) v written)
          = Exited 0)
      /\ (length states < length names ->
          exists m,
            importOf shell host db engine (Z.of_nat (k + length states))
              (validatorsAt v states (length states)) = Throw m
            /\ exit (writeGens shell host db engine outDir names (Z.of_nat k) v
                       written)
               = Uncaught m)%nat.
Proof.
  induction names as [|genName names IH]; intros k v written.
  - exists []. cbn. rewrite app_nil_r. repeat split; [lia | | lia].
    intros j s Hj. discriminate.
  - cbn [writeGens].
    destruct (importOf shell host db engine (Z.of_nat k) v) as [s | m] eqn:E.
    + replace (Z.of_nat k + 1)%Z with (Z.of_nat (S k)) by lia.
      destruct (IH (S k) (VALIDATORS s)
                  (written ++ [(pathOf outDir (Z.of_nat k),
                                textOf shell genName (calcSets s))])%list)
        as (states & Hlen & Himp & Hf & Hall & Hstop).
      exists (s :: states). split; [simpl; lia |]. split; [| split; [| split]].
      * intros [|j] s' Hj.
        -- injection Hj as <-. rewrite Nat.add_0_r. exact E.
        -- rewrite validatorsAt_cons
             by (apply Nat.lt_le_incl, lookup_lt_is_Some; eauto).
           replace (k + S j)%nat with (S k + j)%nat by lia.
           now apply Himp.
      * rewrite Hf, <- app_assoc. cbn [app imap]. rewrite Nat.add_0_r.
        do 2 f_equal. apply imap_ext. intros j s' _. cbn.
        now replace (k + S j)%nat with (S (k + j)) by lia.
      * intros Hl. apply Hall. simpl in Hl. lia.
      * intros Hl. destruct Hstop as (m & Hm & Hx); [simpl in Hl; lia |].
        exists m. split; [| exact Hx]. cbn [length].
        rewrite validatorsAt_cons by lia.
        now replace (k + S (length states))%nat with (S k + length states)%nat by lia.
    + exists []. cbn [length imap files exit]. rewrite app_nil_r.
      split; [lia |]. split; [intros j s Hj; discriminate |].
      split; [reflexivity |]. split; [intros Hl; simpl in Hl; lia |].
      intros _. exists m. split; [| reflexivity].
      rewrite Nat.add_0_r. exact E.
Qed.

(** The driver.  When the path is not a directory it exits with 1 and writes
    nothing; when the test of the path throws, nothing is written either.
    Otherwise it imports the generations in order, the first from no
    validator and each next one from the validators the one before left,
    and after each import writes the file of the generation, [gen1.js]
    first, whose text is the assignment of the sets to the variable of the
    generation.  It stops at the first import that throws: the files of the
    generations before it are written, none after, and the process ends on
    that exception.  When the nine imports return it exits with 0. *)
Theorem main_files :
  (isDirectory shell outDir = Some false ->
   main shell host db engine outDir = mkRun [] (Exited 1))
  /\ (isDirectory shell outDir = None ->
      main shell host db engine outDir = mkRun [] (Uncaught "ENOENT"))
  /\ (isDirectory shell outDir = Some true ->
      exists states : list (State engine),
        (length states <= 9)%nat
        /\ (forall j s, states !! j = Some s ->
              importOf shell host db engine (Z.of_nat j)
                (validatorsAt ∅ states j) = Ok s)
        /\ files (main shell host db engine outDir)
           = imap (fun j s =>
                     (outDir ++ "/gen" ++ pretty (Z.of_nat (S j)) ++ ".js",
                      textOf shell (default "" (genNames !! j)) (calcSets s)))
               states
        /\ (length states = 9%nat ->
            exit (main shell host db engine outDir) = Exited 0)
        /\ (length states < 9 ->
            exists m,
              importOf shell host db engine (Z.of_nat (length states))
                (validatorsAt ∅ states (length states)) = Throw m
              /\ exit (main shell host db engine outDir) = Uncaught m)%nat).
Proof.
  unfold main. split; [now intros -> |]. split; [now intros -> |].
  intros ->.
  destruct (writeGens_run genNames 0 ∅ []) as (states & Hlen & Himp & Hf & Hall & Hstop).
  exists states. split; [exact Hlen |]. split; [exact Himp |].
  split; [| split; [exact Hall | exact Hstop]].
  change (Z.of_nat 0) with 0%Z in Hf. rewrite Hf. cbn [app].
  apply imap_ext. intros j s _. cbn. unfold pathOf.
  now replace (Z.of_nat j + 1)%Z with (Z.of_nat (S j)) by lia.
Qed.

End DriverFacts.

(** A run whose second generation throws in the fetch of its curated
    sets: one file is written, and the process ends on the exception of
    the fetch. *)
Lemma main_files_witness :
  exists states : list (State Sample.permissive),
    files (main (mkShell (fun _ => Some true)
                   (fun n => if (n =? 1)%Z then Ok [] else Throw "fetch failed")
                   (fun _ => "{}"))
             Sample.host Sample.db Sample.permissive "out")
    = imap (fun j s =>
              ("out" ++ "/gen" ++ pretty (Z.of_nat (S j)) ++ ".js",
               textOf (mkShell (fun _ => Some true)
                         (fun n => if (n =? 1)%Z then Ok [] else Throw "fetch failed")
                         (fun _ => "{}"))
                 (default "" (genNames !! j)) (calcSets s)))
        states
    /\ (length states <= 9)%nat.
Proof.
  destruct (main_files
              (mkShell (fun _ => Some true)
                 (fun n => if (n =? 1)%Z then Ok [] else Throw "fetch failed")
                 (fun _ => "{}"))
              Sample.host Sample.db Sample.permissive "out") as (_ & _ & H).
  destruct (H eq_refl) as (states & Hlen & _ & Hf & _).
  exists states. split; [exact Hf | exact Hlen].
Defined.

(* ===================================================================== *)
(** ** The builder of usage sets, and what the passes keep *)
(* ===================================================================== *)

Lemma orEmpty_not_nothing (t : Top) : orEmpty t <> "Nothing".
Proof.
  unfold orEmpty. destruct t as [| k | ks]; try discriminate.
  destruct (String.eqb_spec k "Nothing") as [-> | Hk]; simpl.
  - discriminate.
  - destruct (negb (JS.truthy k)); [discriminate | exact Hk].
Qed.

Lemma filter_not_nothing (l : list string) :
  "Nothing" ∉ List.filter (fun m => negb (String.eqb m "Nothing")) l.
Proof.
  intros Hin. apply list_elem_of_In, filter_In in Hin as [_ H].
  now rewrite String.eqb_refl in H.
Qed.

Lemma filter_length_le {A} (f : A -> bool) (l : list A) :
  (length (List.filter f l) <= length l)%nat.
Proof.
  induction l as [|x l IH]; [reflexivity |]. simpl.
  destruct (f x); simpl; lia.
Qed.

(** A usage set that is built has at most four moves, none of them
    [Nothing]; its item and its ability are never [Nothing]; its level is 5,
    50 or 100, by the format alone; its species is the name it was given.
    A bucket without a spread builds no set: it throws. *)
Theorem usageToPset_shape (host : Host) (db : ReferenceDB) (gen : Generation)
  (formatID specieName : string) (uset : UsageStatistics) :
  (forall pset,
      usageToPset host db gen formatID specieName uset = Ok pset ->
      (length (p_moves pset) <= 4)%nat
      /\ ("Nothing" ∉ p_moves pset)
      /\ p_item pset <> "Nothing"
      /\ p_ability pset <> "Nothing"
      /\ p_level pset ∈ ([5; 50; 100]%Z : list Z)
      /\ p_species pset = specieName
      /\ p_name pset = ""
      /\ p_shiny pset = None)
  /\ (u_spreads uset = [] ->
      usageToPset host db gen formatID specieName uset
      = Throw "TypeError: spread is undefined").
Proof.
  split.
  - intros pset E. unfold usageToPset in E.
    destruct (top (u_spreads uset) 1) as [| k | ks]; simpl in E; try discriminate.
    destruct (fromSpread host k) as [ne | m]; simpl in E; [| discriminate].
    injection E as <-.
    match goal with |- context [reconcile db gen ?p] => set (p0 := p) end.
    pose proof (reconcile_frame db gen p0)
      as (Hn & Hsp & Hi & Ha & Hm & _ & _ & _ & Hl & _ & Hsh).
    rewrite Hm, Hi, Ha, Hl, Hsp, Hn, Hsh. subst p0.
    cbn [p_moves p_item p_ability p_level p_species p_name p_shiny].
    repeat split.
    + etransitivity; [apply filter_length_le |].
      unfold top, sliceTo. simpl. rewrite length_map, length_take. lia.
    + apply filter_not_nothing.
    + apply orEmpty_not_nothing.
    + apply orEmpty_not_nothing.
    + unfold getLevel. destruct (JS.includes formatID "lc").
      * apply list_elem_of_here.
      * destruct (JS.includes formatID "vgc" || JS.includes formatID "battlestadium").
        -- apply list_elem_of_further, list_elem_of_here.
        -- do 2 apply list_elem_of_further. apply list_elem_of_here.
  - intros Hs. unfold usageToPset. now rewrite Hs.
Qed.

(** The bucket of the sample. *)
Lemma usageToPset_shape_witness :
  exists pset,
    usageToPset Sample.host Sample.db Sample.gen6 "gen6ou" "Garchomp"
      (Sample.usage 0.3%Q) = Ok pset
    /\ p_item pset <> "Nothing" /\ ("Nothing" ∉ p_moves pset).
Proof.
  eexists. split; [reflexivity |].
  destruct (usageToPset_shape Sample.host Sample.db Sample.gen6 "gen6ou"
              "Garchomp" (Sample.usage 0.3%Q)) as [H _].
  destruct (H _ eq_refl) as (_ & Hm & Hi & _).
  split; [exact Hi | exact Hm].
Defined.

Section PassFacts.

Context (host : Host) (db : ReferenceDB) (engine : LegalityEngine)
  (gen : Generation).

Local Abbreviation St := (ImportState (TeamValidator engine)).

Lemma extends_refl (s : St) : extends s s.
Proof.
  unfold extends. repeat split; auto. exists []. now rewrite app_nil_r.
Qed.

Lemma extends_frame (s0 s s' : St) :
  calcSets s' = calcSets s -> statsIgnore s' = statsIgnore s ->
  formatIDs s' = formatIDs s -> stored s' = stored s ->
  extends s0 s -> extends s0 s'.
Proof. unfold extends. intros -> -> -> ->. intros H. exact H. Qed.

Lemma extends_store (s0 s : St) (src : Source) (k F n : string) (c : CalcSet) :
  extends s0 s -> extends s0 (store engine src k F n c s).
Proof.
  intros (H1 & H2 & (more & H3) & H4). unfold extends.
  cbn [store statsIgnore formatIDs stored calcSets].
  split; [exact H1 |]. split; [exact H2 |]. split.
  - eexists. rewrite H3, <- app_assoc. reflexivity.
  - intros k' label' Hk. specialize (H4 k' label' Hk). unfold assignSet.
    destruct (JS.isInherited k); [exact H4 |].
    destruct (decide (k = k')) as [-> | Hne].
    + rewrite lookup_insert_eq. simpl.
      assert (Hsets : is_Some (default ∅ (calcSets s !! k') !! label')).
      { destruct (calcSets s !! k') as [m |]; simpl in *; [exact H4 |].
        now destruct H4. }
      destruct (String.eqb n "__proto__"); [exact Hsets |].
      destruct (decide (n = label')) as [-> | Hl].
      * rewrite lookup_insert_eq. eauto.
      * now rewrite lookup_insert_ne by exact Hl.
    + now rewrite lookup_insert_ne.
Qed.

Lemma statsRecord_extends (s0 : St) (F : string) (format : option Format)
  (threshold : Threshold) (s : St) (x : string * UsageStatistics) (s' : St) :
  extends s0 s ->
  statsRecord host db engine gen F format threshold s x = Ok s' ->
  extends s0 s'.
Proof.
  intros Hs E. unfold statsRecord in E.
  destruct (ignored (statsIgnore s) x.1 F) as [[|] | m0]; simpl in E;
    [injection E as <-; exact Hs | | discriminate].
  destruct (belowThreshold _ threshold); [injection E as <-; exact Hs |].
  destruct (usageToPset host db gen F _ x.2) as [pset0 | m];
    simpl in E; [| discriminate].
  pose proof (rejected_frame engine format pset0 src_stats s) as (H1 & H2 & H3 & H4).
  destruct (rejected engine format pset0 src_stats s) as [[no pset] s1].
  simpl in H1, H2, H3, H4.
  assert (Hs1 : extends s0 s1) by exact (extends_frame s0 s s1 H1 H2 H3 H4 Hs).
  destruct no; [injection E as <-; exact Hs1 |].
  destruct (setNameOf _ "Showdown Usage") as [setName | m];
    simpl in E; [| discriminate].
  destruct (similarFormes db pset format _ _) as [copyTo | m];
    simpl in E; [| discriminate].
  revert E. apply (forEach_inv (extends s0)).
  - intros s2 forme s2' Hs2 E. unfold statsCopy in E.
    destruct (ignored (statsIgnore s2) forme F) as [[|] | m0]; simpl in E;
      [injection E as <-; exact Hs2 | | discriminate].
    destruct (lookupItem db gen (p_item pset)) as [it |]; [| discriminate].
    destruct (present (i_megaEvolves it) && present (i_megaStone it));
      injection E as <-; now apply extends_store.
  - now apply extends_store.
Qed.

(** The statistics pass only adds: it leaves [statsIgnore] and the formats
    as the curated pass left them, its stores come after those of the
    curated pass, and no set name of a species is lost (a usage set can only
    take the place of a set under its own name). *)
Theorem statsPass_extends (s s' : St) :
  statsPass host db engine gen s = Ok s' -> extends s s'.
Proof.
  unfold statsPass. apply (forEach_inv (extends s)); [| apply extends_refl].
  intros s1 F s1' Hs1 E. unfold statsFormat in E.
  destruct (match resolveFormat db F with Some f => negb (f_exists f) | None => false end);
    [injection E as <-; exact Hs1 |].
  destruct (fetchStats host F) as [page |]; [| injection E as <-; exact Hs1].
  revert E. apply (forEach_inv (extends s)); [| exact Hs1].
  intros s2 x s2'. apply statsRecord_extends.
Qed.

End PassFacts.

(** The statistics pass after the curated pass of the sample. *)
Lemma statsPass_extends_witness :
  exists s s',
    dexPass Sample.db Sample.permissive Sample.gen6 Sample.dexSets
      (initial Sample.permissive ∅) = Ok s
    /\ statsPass Sample.host Sample.db Sample.permissive Sample.gen6 s = Ok s'
    /\ extends s s'.
Proof.
  assert (E : exists s s',
             dexPass Sample.db Sample.permissive Sample.gen6 Sample.dexSets
               (initial Sample.permissive ∅) = Ok s
             /\ statsPass Sample.host Sample.db Sample.permissive Sample.gen6 s
                = Ok s').
  { eexists. eexists. split; vm_compute; reflexivity. }
  destruct E as (s & s' & E1 & E2). exists s, s'.
  split; [exact E1 |]. split; [exact E2 |].
  exact (statsPass_extends Sample.host Sample.db Sample.permissive Sample.gen6
           s s' E2).
Defined.

(** ** Instances of the conditional parts *)

(** A map of one entry: its key is what the selector gives. *)
Lemma top_one_is_a_key_witness :
  top [("Leftovers", 1%Q)] 1 = TopKey "Leftovers"
  /\ "Leftovers" ∈ map fst [("Leftovers", 1%Q)].
Proof.
  split; [reflexivity|].
  destruct (top_one_is_a_key [("Leftovers", 1%Q)]) as (_ & H & _).
  apply H. reflexivity.
Defined.

(** The curated set of Aegislash gives no effort values: the
    calculator's set has none. *)
Lemma dexToPset_calc_stats_witness :
  c_evs (psetToCalcSet 6
           (dexToPset Sample.db Sample.gen6 Sample.aegislash Sample.kingsShield))
  = []
  /\ c_ivs (psetToCalcSet 6
              (dexToPset Sample.db Sample.gen6 Sample.aegislash Sample.kingsShield))
     = [].
Proof.
  destruct (dexToPset_calc_stats Sample.db Sample.gen6 Sample.aegislash
              Sample.kingsShield) as (_ & He & Hi & _).
  split; [apply He | apply Hi]; reflexivity.
Defined.

(** A Rayquaza with Dragon Ascent in a format whose identifier has
    no generation: the resolver throws. *)
Lemma similarFormes_results_witness :
  exists f,
    Some (mkFormat "ou" "OU" true []) = Some f
    /\ p_species (setMoves (Sample.plain "Rayquaza" "Air Lock") ["Dragon Ascent"])
       = "Rayquaza"
    /\ "Dragon Ascent"
       ∈ p_moves (setMoves (Sample.plain "Rayquaza" "Air Lock") ["Dragon Ascent"])
    /\ JS.genNumOf (f_id f) = None.
Proof.
  destruct (similarFormes_results Sample.db
              (setMoves (Sample.plain "Rayquaza" "Air Lock") ["Dragon Ascent"])
              (Some (mkFormat "ou" "OU" true []))
              (mkSpecie "Rayquaza" "Air Lock" false "Rayquaza") None)
    as (_ & H & _).
  apply (H "TypeError: exec gave null"). reflexivity.
Defined.
